(** * kes-to-eso: the conversion pipeline of [kes-to-eso.mjs]

    A shallow embedding of the script that rewrites legacy KES
    ExternalSecret manifests into the ESO schema, and the properties of
    its stages: flattening, eligibility filter, cleaning, transformation,
    remote-reference construction, and the write loop. *)

From Stdlib Require Import ZArith Ascii String List Bool Lia DecimalString.
From stdpp Require Import base option list gmap strings.

Local Open Scope string_scope.
Local Open Scope list_scope.
Local Open Scope nat_scope.

(** ** Values

    What [yaml.loadAll] hands to the script, and what the script builds:
    JavaScript values restricted to the JSON-like fragment, plus
    [undefined], which every read of a missing property produces.
    Numbers are the integer scalars (fractions, NaN and the infinities
    are left out, and so are the [Date] objects of YAML timestamps); an
    object is the list of its own properties in insertion order. *)

#[local] Unset Elimination Schemes.
Inductive value : Type :=
| VUndef
| VNull
| VBool (b : bool)
| VNum (n : Z)
| VStr (s : string)
| VArr (elems : list value)
| VObj (props : list (string * value)).
#[local] Set Elimination Schemes.

(** Induction over the nested lists of [value]. *)
Section value_induction.
Variable P : value → Prop.
Hypothesis Hundef : P VUndef.
Hypothesis Hnull : P VNull.
Hypothesis Hbool : ∀ b, P (VBool b).
Hypothesis Hnum : ∀ n, P (VNum n).
Hypothesis Hstr : ∀ s, P (VStr s).
Hypothesis Harr : ∀ l, Forall P l → P (VArr l).
Hypothesis Hobj : ∀ ps, Forall (λ p, P p.2) ps → P (VObj ps).

Fixpoint value_ind (v : value) : P v :=
  match v with
  | VUndef => Hundef
  | VNull => Hnull
  | VBool b => Hbool b
  | VNum n => Hnum n
  | VStr s => Hstr s
  | VArr l =>
      Harr l ((fix go (l : list value) : Forall P l :=
                 match l with
                 | [] => Forall_nil_2 P
                 | x :: l' => Forall_cons_2 P x l' (value_ind x) (go l')
                 end) l)
  | VObj ps =>
      Hobj ps ((fix go (ps : list (string * value)) : Forall (λ p, P p.2) ps :=
                  match ps with
                  | [] => Forall_nil_2 _
                  | p :: ps' =>
                      Forall_cons_2 (λ p, P p.2) p ps' (value_ind p.2) (go ps')
                  end) ps)
  end.
End value_induction.

(** ** Exceptions and results *)

Inductive exn : Type :=
| TypeError
| SyntaxError
| HostError (msg : string).

Inductive result (A : Type) : Type :=
| Ok (a : A)
| Throw (e : exn).
Arguments Ok {A} a.
Arguments Throw {A} e.

Definition result_bind {A B} (m : result A) (k : A → result B) : result B :=
  match m with
  | Ok a => k a
  | Throw e => Throw e
  end.

Declare Scope js_scope.
Delimit Scope js_scope with js.
Notation "x <- m ;; k" := (result_bind m (λ x, k))
  (at level 100, m at next level, right associativity) : js_scope.
Local Open Scope js_scope.

(** [Array.prototype.map] with a callback that may throw: elements are
    visited left to right and the first exception ends the loop. *)
Fixpoint mapR {A B} (f : A → result B) (l : list A) : result (list B) :=
  match l with
  | [] => Ok []
  | x :: l' => y <- f x ;; ys <- mapR f l' ;; Ok (y :: ys)
  end.

(** ** Primitive operations on values *)

(** JavaScript truthiness: what [if (v)], [!v] and [a || b] test. *)
Definition truthy (v : value) : bool :=
  match v with
  | VUndef | VNull => false
  | VBool b => b
  | VNum n => negb (n =? 0)%Z
  | VStr s => negb (String.eqb s "")
  | VArr _ | VObj _ => true
  end.

Definition nullish (v : value) : bool :=
  match v with
  | VUndef | VNull => true
  | _ => false
  end.

(** [a === b] where one side is a primitive.  Two object operands are
    equal only when they are the same reference; the script compares
    parsed values against string literals only, so that case is [false]. *)
Definition strict_eq (a b : value) : bool :=
  match a, b with
  | VUndef, VUndef | VNull, VNull => true
  | VBool x, VBool y => Bool.eqb x y
  | VNum x, VNum y => (x =? y)%Z
  | VStr x, VStr y => String.eqb x y
  | _, _ => false
  end.

(** Own property of an object, by name. *)
Fixpoint own {A} (k : string) (ps : list (string * A)) : option A :=
  match ps with
  | [] => None
  | (k', v) :: ps' => if String.eqb k' k then Some v else own k ps'
  end.

(** [v.k] / [v[k]] for the property names the script reads ([apiVersion],
    [kind], [spec], [metadata], [items], [name], [namespace],
    [annotations], [backendType], [template], [data], [dataFrom], [key],
    [version], [versionId], [versionStage], [property]): none of them is an
    own or inherited property of a string, number, boolean or array, so
    the read yields [undefined] there; on [undefined] and [null] it
    throws. *)
Definition get (v : value) (k : string) : result value :=
  match v with
  | VUndef | VNull => Throw TypeError
  | VObj ps => Ok (default VUndef (own k ps))
  | _ => Ok VUndef
  end.

(** Removal of an own property. *)
Definition remove {A} (k : string) (ps : list (string * A)) : list (string * A) :=
  List.filter (λ p, negb (String.eqb p.1 k)) ps.

(** [delete v.k]: throws on [undefined] and [null], removes the property
    of an object, and does nothing on the other values (none of the
    deleted names exists there). *)
Definition delete (v : value) (k : string) : result value :=
  match v with
  | VUndef | VNull => Throw TypeError
  | VObj ps => Ok (VObj (remove k ps))
  | _ => Ok v
  end.

(** The object [v] with the value of its property [k] replaced (the
    property keeps its position). *)
Fixpoint replace {A} (k : string) (x : A) (ps : list (string * A))
  : list (string * A) :=
  match ps with
  | [] => []
  | (k', v) :: ps' =>
      if String.eqb k' k then (k', x) :: ps' else (k', v) :: replace k x ps'
  end.

Definition with_prop (v : value) (k : string) (x : value) : value :=
  match v with
  | VObj ps => VObj (replace k x ps)
  | _ => v
  end.

(** [delete v.p1.p2. ... .pn.k]: the base [v.p1. ... .pn] is read step by
    step, then the property is deleted from it in place; in the tree
    reading the updated child is put back where it was. *)
Fixpoint delete_path (v : value) (path : list string) (k : string) : result value :=
  match path with
  | [] => delete v k
  | p :: rest =>
      child <- get v p ;;
      child' <- delete_path child rest k ;;
      Ok (with_prop v p child')
  end.

(** ** [JSON.parse(JSON.stringify(item))]

    [JSON.stringify] leaves out the properties whose value is
    [undefined], writes [null] for an [undefined] array element, and
    returns [undefined] (which [JSON.parse] rejects) for a top-level
    [undefined]. *)
Fixpoint json_copy (v : value) : value :=
  match v with
  | VArr l =>
      VArr ((fix go (l : list value) : list value :=
               match l with
               | [] => []
               | VUndef :: l' => VNull :: go l'
               | x :: l' => json_copy x :: go l'
               end) l)
  | VObj ps =>
      VObj ((fix go (ps : list (string * value)) : list (string * value) :=
               match ps with
               | [] => []
               | (_, VUndef) :: ps' => go ps'
               | (k, x) :: ps' => (k, json_copy x) :: go ps'
               end) ps)
  | _ => v
  end.

Definition json_roundtrip (v : value) : result value :=
  match v with
  | VUndef => Throw SyntaxError
  | _ => Ok (json_copy v)
  end.

(** A value in which [undefined] does not occur: what the YAML parser
    produces. *)
Fixpoint json_like (v : value) : bool :=
  match v with
  | VUndef => false
  | VArr l => forallb json_like l
  | VObj ps => forallb (λ p, json_like p.2) ps
  | _ => true
  end.

(** ** Cleaning: [cleanKesItem] *)

Definition last_applied : string := "kubectl.kubernetes.io/last-applied-configuration".

Definition cleanKesItem (item : value) : result value :=
  copy <- json_roundtrip item ;;
  copy <- delete_path copy ["metadata"] "creationTimestamp" ;;
  copy <- delete_path copy ["metadata"] "generation" ;;
  copy <- delete_path copy ["metadata"] "resourceVersion" ;;
  copy <- delete_path copy ["metadata"] "uid" ;;
  copy <- delete_path copy ["metadata"] "selfLink" ;;
  copy <- (md <- get copy "metadata" ;;
           ann <- get md "annotations" ;;
           if nullish ann then Ok copy
           else delete_path copy ["metadata"; "annotations"] last_applied) ;;
  delete_path copy [] "status".

(** ** Remote references: [createRemoteRef], [convertData], [convertDataFrom] *)

(** [a || b] *)
Definition js_or (a b : value) : value := if truthy a then a else b.

Definition createRemoteRef (dataItem : value) : result value :=
  key <- get dataItem "key" ;;
  let remoteRef := [("key", key)] in
  v1 <- get dataItem "version" ;;
  v2 <- get dataItem "versionId" ;;
  v3 <- get dataItem "versionStage" ;;
  let version := js_or (js_or v1 v2) v3 in
  let remoteRef := if truthy version then (remoteRef ++ [("version", version)])%list else remoteRef in
  property <- get dataItem "property" ;;
  let remoteRef := if truthy property then (remoteRef ++ [("property", property)])%list else remoteRef in
  Ok (VObj remoteRef).

(** [xs.map(f)]: only an array has [map]; calling it on anything else is
    a TypeError (on [undefined]/[null] the property read itself throws,
    elsewhere [xs.map] is not a function). *)
Definition js_map (f : value → result value) (xs : value) : result value :=
  match xs with
  | VArr l => ys <- mapR f l ;; Ok (VArr ys)
  | _ => Throw TypeError
  end.

Definition convertData (kesData : value) : result value :=
  js_map (λ dataItem,
            name <- get dataItem "name" ;;
            remoteRef <- createRemoteRef dataItem ;;
            Ok (VObj [("secretKey", name); ("remoteRef", remoteRef)]))
         kesData.

Definition convertDataFrom (kesDataFrom : value) : result value :=
  js_map (λ dataFromItem, createRemoteRef (VObj [("key", dataFromItem)])) kesDataFrom.

(** ** Configuration: [cli.flags] *)

Record flags : Type := Flags {
  out : string;
  refreshInterval : string;
  cluster : bool
}.

Definition default_flags : flags :=
  {| out := "./converted"; refreshInterval := "1h"; cluster := false |}.

(** ** Transformation: the [.map((kes) => ...)] callback *)

(** [obj.k = x] on a freshly built object that has no [k] yet. *)
Definition add_prop (v : value) (k : string) (x : value) : value :=
  match v with
  | VObj ps => VObj (ps ++ [(k, x)])%list
  | _ => v
  end.

Definition transform (cfg : flags) (kes : value) : result value :=
  metadata <- get kes "metadata" ;;
  kspec <- get kes "spec" ;;
  backendType <- get kspec "backendType" ;;
  let espec :=
    VObj [("refreshInterval", VStr (refreshInterval cfg));
          ("secretStoreRef",
            VObj [("name", backendType);
                  ("kind", VStr (if cluster cfg then "ClusterSecretStore" else "SecretStore"))])] in
  template <- get kspec "template" ;;
  let espec :=
    if truthy template then add_prop espec "target" (VObj [("template", template)])
    else espec in
  data <- get kspec "data" ;;
  espec <- (if truthy data then d <- convertData data ;; Ok (add_prop espec "data" d)
            else Ok espec) ;;
  dataFrom <- get kspec "dataFrom" ;;
  espec <- (if truthy dataFrom then d <- convertDataFrom dataFrom ;; Ok (add_prop espec "dataFrom" d)
            else Ok espec) ;;
  Ok (VObj [("apiVersion", VStr "external-secrets.io/v1alpha1");
            ("kind", VStr "ExternalSecret");
            ("metadata", metadata);
            ("spec", espec)]).

(** ** Parsing and flattening: the two nested [flatMap] calls *)

(** What [flatMap] does with one callback result: an array is spliced
    in (one level), anything else is one element. *)
Definition flat_one (r : value) : list value :=
  match r with
  | VArr l => l
  | _ => [r]
  end.

Definition flatMap {A} (f : A → result value) (xs : list A) : result (list value) :=
  rs <- mapR f xs ;; Ok (concat (List.map flat_one rs)).

(** The inner callback: [parsed.items] when truthy, else [parsed]. *)
Definition flatten_doc (parsed : value) : result value :=
  items <- get parsed "items" ;;
  if truthy items then Ok items else Ok parsed.

(** [files] holds, for each resolved path in order, the documents
    [yaml.loadAll] returns for it. *)
Definition flatten (files : list (list value)) : result (list value) :=
  flatMap (λ documents, cs <- flatMap flatten_doc documents ;; Ok (VArr cs)) files.

(** ** The process: console, file system, and the monad of effects *)

Inductive console_call : Type :=
| ConsoleError (args : list value)
| ConsoleWarn (args : list value)
| ConsoleLog (args : list value).

Record world : Type := World {
  console : list console_call;
  dirs : gset string;
  files : gmap string string
}.

Definition empty_world : world := {| console := []; dirs := ∅; files := ∅ |}.

Definition M (A : Type) : Type := world → result A * world.

Definition ret {A} (a : A) : M A := λ w, (Ok a, w).

Definition bind {A B} (m : M A) (k : A → M B) : M B :=
  λ w, match m w with
       | (Ok a, w') => k a w'
       | (Throw e, w') => (Throw e, w')
       end.

Definition lift {A} (r : result A) : M A := λ w, (r, w).

Notation "x <~ m ;; k" := (bind m (λ x, k))
  (at level 100, m at next level, right associativity) : js_scope.

Definition emit (c : console_call) : M unit :=
  λ w, (Ok tt, {| console := console w ++ [c]; dirs := dirs w; files := files w |}).

Definition console_error (args : list value) : M unit := emit (ConsoleError args).
Definition console_warn (args : list value) : M unit := emit (ConsoleWarn args).
Definition console_log (args : list value) : M unit := emit (ConsoleLog args).

(** [mkdirp.sync(dir)] and [fs.writeFileSync(path, text)], taken to
    succeed: the directory exists afterwards, and the file holds exactly
    the new text whatever it held before. *)
Definition mkdirp_sync (dir : string) : M unit :=
  λ w, (Ok tt, {| console := console w; dirs := {[dir]} ∪ dirs w; files := files w |}).

Definition writeFileSync (path output : string) : M unit :=
  λ w, (Ok tt, {| console := console w; dirs := dirs w; files := <[path := output]> (files w) |}).

(** [xs.filter(p)] and [xs.forEach(f)] with an effectful callback. *)
Fixpoint filterM (p : value → M bool) (xs : list value) : M (list value) :=
  match xs with
  | [] => ret []
  | x :: xs' =>
      b <~ p x ;;
      ys <~ filterM p xs' ;;
      ret (if b then x :: ys else ys)
  end.

Fixpoint forEach (f : value → M unit) (xs : list value) : M unit :=
  match xs with
  | [] => ret tt
  | x :: xs' => _ <~ f x ;; forEach f xs'
  end.

(** ** Eligibility filter: [fail] and the [.filter] callback *)

Definition fail (item : value) (field : string) (value : value) : M bool :=
  if negb (truthy value) then
    f <~ lift (get item field) ;;
    if negb (truthy f) then
      md <~ lift (get item "metadata") ;;
      name <~ lift (get md "name") ;;
      _ <~ console_error [VStr "Expected"; name; VStr "to have field:"; VStr field] ;;
      ret true
    else ret false
  else
    f <~ lift (get item field) ;;
    if negb (strict_eq f value) then
      md <~ lift (get item "metadata") ;;
      name <~ lift (get md "name") ;;
      _ <~ console_error [VStr "Expected"; name; VStr "to have field:"; VStr field;
                          VStr "with value:"; value] ;;
      ret true
    else ret false.

(** [a || b] on effectful boolean operands: [b] runs only when [a] is false. *)
Definition orM (a b : M bool) : M bool :=
  x <~ a ;; if x then ret true else b.

Definition keep (item : value) : M bool :=
  failed <~ orM (fail item "apiVersion" (VStr "kubernetes-client.io/v1"))
                (orM (fail item "kind" (VStr "ExternalSecret"))
                     (fail item "spec" VUndef)) ;;
  ret (negb failed).

(** The eligibility conditions as a predicate. *)
Definition field_of (item : value) (k : string) : value :=
  match get item k with
  | Ok v => v
  | Throw _ => VUndef
  end.

Definition eligible (item : value) : bool :=
  strict_eq (field_of item "apiVersion") (VStr "kubernetes-client.io/v1")
  && strict_eq (field_of item "kind") (VStr "ExternalSecret")
  && truthy (field_of item "spec").

(** ** The pipeline up to the list [esoSecrets] *)

Definition convert (cfg : flags) (inputs : list (list value)) : M (list value) :=
  candidates <~ lift (flatten inputs) ;;
  kept <~ filterM keep candidates ;;
  kess <~ lift (mapR cleanKesItem kept) ;;
  lift (mapR (transform cfg) kess).

(** ** Serialization and write

    The library calls the loop makes are parameters of the model:
    [yaml.dump], [path.resolve] (which rejects a non-string argument) and
    [path.dirname], and the decimal printing of a number inside a
    template literal. *)
Class Host : Type := {
  yaml_dump : value → result string;
  path_resolve : list value → result string;
  path_dirname : string → string;
  number_toString : Z → string
}.

Inductive outcome : Type :=
| Exited (code : Z)
| Uncaught (e : exn).

Section Process.
Context `{Host}.

(** String conversion of [${v}]. *)
Fixpoint js_to_string (v : value) : string :=
  match v with
  | VUndef => "undefined"
  | VNull => "null"
  | VBool true => "true"
  | VBool false => "false"
  | VNum n => number_toString n
  | VStr s => s
  | VArr l =>
      (fix join (l : list value) : string :=
         match l with
         | [] => ""
         | [x] => if nullish x then "" else js_to_string x
         | x :: l' => ((if nullish x then "" else js_to_string x) ++ "," ++ join l')%string
         end) l
  | VObj _ => "[object Object]"
  end.

Definition write_one (cfg : flags) (esoSecret : value) : M unit :=
  md <~ lift (get esoSecret "metadata") ;;
  ns <~ lift (get md "namespace") ;;
  let namespace := js_or ns (VStr "default") in
  output <~ lift (yaml_dump esoSecret) ;;
  name <~ lift (get md "name") ;;
  outputPath <~ lift (path_resolve [VStr (out cfg); namespace;
                                    VStr (js_to_string name ++ ".yaml")]) ;;
  _ <~ console_log [VStr "Writing to"; VStr outputPath] ;;
  _ <~ mkdirp_sync (path_dirname outputPath) ;;
  writeFileSync outputPath output.

(** The namespace segment of the output path. *)
Definition namespace_of (md : value) : value :=
  if truthy (field_of md "namespace") then field_of md "namespace" else VStr "default".

(** The file name segment: [`${metadata.name}.yaml`]. *)
Definition file_name_of (md : value) : string :=
  (js_to_string (field_of md "name") ++ ".yaml")%string.

(** The path and text one target resource is written to, when the
    library calls succeed. *)
Definition output_of (cfg : flags) (esoSecret : value) : result (string * string) :=
  md <- get esoSecret "metadata" ;;
  _ <- get md "namespace" ;;
  output <- yaml_dump esoSecret ;;
  outputPath <- path_resolve [VStr (out cfg); namespace_of md; VStr (file_name_of md)] ;;
  Ok (outputPath, output).

Definition written (o : string * string) (w : world) : world :=
  {| console := console w ++ [ConsoleLog [VStr "Writing to"; VStr o.1]];
     dirs := {[path_dirname o.1]} ∪ dirs w;
     files := <[o.1 := o.2]> (files w) |}.


Definition no_secrets_warning : console_call :=
  ConsoleWarn [VStr "No convertable ExternalSecrets found"].

(** The body of the script, from the parsed inputs to the end of the
    process: [process.exit(1)] is [Exited 1], reaching the end of the
    script is [Exited 0], and an exception nobody catches is
    [Uncaught]. *)
Definition main (cfg : flags) (inputs : list (list value)) (w : world) : outcome * world :=
  match convert cfg inputs w with
  | (Throw e, w1) => (Uncaught e, w1)
  | (Ok esoSecrets, w1) =>
      if (length esoSecrets =? 0)%nat then
        match console_warn [VStr "No convertable ExternalSecrets found"] w1 with
        | (_, w2) => (Exited 1, w2)
        end
      else
        match forEach (write_one cfg) esoSecrets w1 with
        | (Ok _, w2) => (Exited 0, w2)
        | (Throw e, w2) => (Uncaught e, w2)
        end
  end.
End Process.

(** * Notions used in the statements *)

(** ** Remote references *)

(** The first of a list of values that passes the truthiness test. *)
Definition first_truthy (vs : list value) : option value := List.find truthy vs.

(** The reference [createRemoteRef] builds, written as one expression. *)
Definition remote_ref_of (dataItem : value) : value :=
  VObj ([("key", field_of dataItem "key")]
        ++ match first_truthy [field_of dataItem "version";
                               field_of dataItem "versionId";
                               field_of dataItem "versionStage"] with
           | Some v => [("version", v)]
           | None => []
           end
        ++ (if truthy (field_of dataItem "property")
            then [("property", field_of dataItem "property")] else []))%list.

(** ** Transformation *)

Definition store_kind (cfg : flags) : string :=
  if cluster cfg then "ClusterSecretStore" else "SecretStore".

(** The part of the target [spec] that does not depend on [data] and
    [dataFrom]. *)
Definition spec_head (cfg : flags) (kspec : value) : list (string * value) :=
  ([("refreshInterval", VStr (refreshInterval cfg));
    ("secretStoreRef",
      VObj [("name", field_of kspec "backendType"); ("kind", VStr (store_kind cfg))])]
   ++ (if truthy (field_of kspec "template")
       then [("target", VObj [("template", field_of kspec "template")])] else []))%list.

Definition optional_part (k : string) (conv : value → result value) (x : value)
  : result (list (string * value)) :=
  if truthy x then d <- conv x ;; Ok [(k, d)] else Ok [].

(** [spec.data] and [spec.dataFrom] can be converted: each is falsy, or
    a sequence (whose elements, for [data], are not null). *)
Definition data_convertible (kspec : value) : bool :=
  (if truthy (field_of kspec "data")
   then match field_of kspec "data" with
        | VArr l => forallb (λ x, negb (nullish x)) l
        | _ => false
        end
   else true)
  && (if truthy (field_of kspec "dataFrom")
      then match field_of kspec "dataFrom" with VArr _ => true | _ => false end
      else true).

Definition data_entry (dataItem : value) : value :=
  VObj [("secretKey", field_of dataItem "name"); ("remoteRef", remote_ref_of dataItem)].

(** What [convertDataFrom] makes of one element. *)
Definition wrap_key (e : value) : value := VObj [("key", e)].

(** ** Cleaning, in closed form *)

Definition del (v : value) (k : string) : value :=
  match v with
  | VObj ps => VObj (remove k ps)
  | _ => v
  end.

Definition managed_fields : list string :=
  ["creationTimestamp"; "generation"; "resourceVersion"; "uid"; "selfLink"].

Definition strip_metadata (md : value) : value :=
  let md := foldl del md managed_fields in
  if nullish (field_of md "annotations") then md
  else with_prop md "annotations" (del (field_of md "annotations") last_applied).

Definition has_prop (v : value) (k : string) : bool :=
  match v with
  | VObj ps => bool_decide (is_Some (own k ps))
  | _ => false
  end.

(** ** Eligibility filter *)

Definition api_version : string := "kubernetes-client.io/v1".
Definition kind_name : string := "ExternalSecret".

Definition name_of (item : value) : value :=
  field_of (field_of item "metadata") "name".

(** The diagnostic printed for a candidate: the first check that fails
    decides it, and an eligible candidate has none. *)
Definition diagnostic (item : value) : option console_call :=
  if negb (strict_eq (field_of item "apiVersion") (VStr api_version)) then
    Some (ConsoleError [VStr "Expected"; name_of item; VStr "to have field:";
                        VStr "apiVersion"; VStr "with value:"; VStr api_version])
  else if negb (strict_eq (field_of item "kind") (VStr kind_name)) then
    Some (ConsoleError [VStr "Expected"; name_of item; VStr "to have field:";
                        VStr "kind"; VStr "with value:"; VStr kind_name])
  else if negb (truthy (field_of item "spec")) then
    Some (ConsoleError [VStr "Expected"; name_of item; VStr "to have field:"; VStr "spec"])
  else None.

Definition printed (c : option console_call) (w : world) : world :=
  match c with
  | Some c => {| console := console w ++ [c]; dirs := dirs w; files := files w |}
  | None => w
  end.

(** A candidate on which [item.metadata.name] can be read. *)
Definition has_metadata (item : value) : bool :=
  negb (nullish item) && negb (nullish (field_of item "metadata")).

(** The diagnostics printed for a list of candidates, in order. *)
Fixpoint printed_all (cands : list value) (w : world) : world :=
  match cands with
  | [] => w
  | c :: cands' => printed_all cands' (printed (diagnostic c) w)
  end.

(** ** Flattening *)

(** What one parsed document adds to the candidates. *)
Definition contribution (doc : value) : list value :=
  flat_one (if truthy (field_of doc "items") then field_of doc "items" else doc).

(** The flattening rule in the words of the specification: a document
    with an [items] sequence gives the elements of that sequence, any
    other document gives itself; the order of files, of documents in a
    file and of elements in a list is kept. *)
Definition candidates_spec (doc : value) : list value :=
  match field_of doc "items" with
  | VArr l => l
  | _ => [doc]
  end.

Definition flatten_spec (inputs : list (list value)) : list value :=
  concat (List.map (λ docs, concat (List.map candidates_spec docs)) inputs).

(** The documents on which the code and that rule agree: not null, not
    themselves a sequence, and with an [items] that is falsy or a
    sequence. *)
Definition regular_doc (doc : value) : bool :=
  negb (nullish doc)
  && match doc with VArr _ => false | _ => true end
  && (negb (truthy (field_of doc "items"))
      || match field_of doc "items" with VArr _ => true | _ => false end).

(** ** Cleaning of the candidates that pass the filter *)

Definition cleaned (item : value) : value :=
  match item with
  | VObj ps =>
      VObj (remove "status"
              (replace "metadata" (strip_metadata (field_of item "metadata")) ps))
  | _ => item
  end.


(** ** A host to run the model on examples

    Stand-ins for the library calls: a flow-style dump, path resolution
    by joining three string segments (a TypeError on anything else),
    the directory of a path, and decimal printing. *)

Definition decimal (n : Z) : string := NilZero.string_of_int (Z.to_int n).

Fixpoint flow_dump (v : value) : string :=
  match v with
  | VUndef => "undefined"
  | VNull => "null"
  | VBool true => "true"
  | VBool false => "false"
  | VNum n => decimal n
  | VStr s => s
  | VArr l =>
      ("[" ++ (fix go (l : list value) : string :=
                 match l with
                 | [] => ""
                 | [x] => flow_dump x
                 | x :: l' => flow_dump x ++ ", " ++ go l'
                 end) l ++ "]")%string
  | VObj ps =>
      ("{" ++ (fix go (ps : list (string * value)) : string :=
                 match ps with
                 | [] => ""
                 | [(k, x)] => k ++ ": " ++ flow_dump x
                 | (k, x) :: ps' => k ++ ": " ++ flow_dump x ++ ", " ++ go ps'
                 end) ps ++ "}")%string
  end.

Definition join3 (args : list value) : result string :=
  match args with
  | [VStr a; VStr b; VStr c] => Ok (a ++ "/" ++ b ++ "/" ++ c)%string
  | _ => Throw TypeError
  end.

Fixpoint before_last_slash (s : string) : option string :=
  match s with
  | EmptyString => None
  | String c s' =>
      match before_last_slash s' with
      | Some d => Some (String c d)
      | None => if Ascii.eqb c "/"%char then Some EmptyString else None
      end
  end.

Definition sample_host : Host :=
  {| yaml_dump := λ v, Ok (flow_dump v);
     path_resolve := join3;
     path_dirname := λ p, default "." (before_last_slash p);
     number_toString := decimal |}.
Definition db_creds : value :=
  VObj [("apiVersion", VStr "kubernetes-client.io/v1");
        ("kind", VStr "ExternalSecret");
        ("metadata", VObj [("name", VStr "db-creds"); ("namespace", VStr "prod")]);
        ("spec", VObj [("backendType", VStr "vault");
                       ("data", VArr [VObj [("name", VStr "password");
                                            ("key", VStr "secret/db#password")]])])].

Definition db_creds_eso : value :=
  VObj [("apiVersion", VStr "external-secrets.io/v1alpha1");
        ("kind", VStr "ExternalSecret");
        ("metadata", VObj [("name", VStr "db-creds"); ("namespace", VStr "prod")]);
        ("spec", VObj [("refreshInterval", VStr "1h");
                       ("secretStoreRef", VObj [("name", VStr "vault");
                                                ("kind", VStr "SecretStore")]);
                       ("data", VArr [VObj [("secretKey", VStr "password");
                                            ("remoteRef",
                                              VObj [("key", VStr "secret/db#password")])]])])].

(** A Kustomization file, as found next to the manifests it lists: no
    [metadata]. *)
Definition kustomization : value :=
  VObj [("apiVersion", VStr "kustomize.config.k8s.io/v1beta1");
        ("kind", VStr "Kustomization");
        ("resources", VArr [VStr "db-creds.yaml"])].

Definition config_map : value :=
  VObj [("apiVersion", VStr "v1");
        ("kind", VStr "ConfigMap");
        ("metadata", VObj [("name", VStr "settings")]);
        ("data", VObj [("mode", VStr "fast")])].



(** * Cleaning in the object store

    [cleanKesItem] with the objects where JavaScript keeps them: in a
    store, behind references.  [JSON.stringify] reads the tree below a
    reference, [JSON.parse] allocates fresh objects for the copy, and
    each [delete] updates one object of the store in place. *)

(** What a variable, a property or an array slot holds. *)
Inductive ref : Type :=
| RUndef
| RNull
| RBool (b : bool)
| RNum (n : Z)
| RStr (s : string)
| RPtr (l : nat).

Inductive cell : Type :=
| CArr (elems : list ref)
| CObj (props : list (string * ref)).

(** The store: the object at address [l] is the [l]-th cell. *)
Definition store : Type := list cell.

(** The tree below a reference; [None] when the fuel runs out (only a
    cyclic structure needs more than one step per cell) or an address
    is not allocated. *)
Fixpoint tree (fuel : nat) (h : store) (r : ref) : option value :=
  match r with
  | RUndef => Some VUndef
  | RNull => Some VNull
  | RBool b => Some (VBool b)
  | RNum n => Some (VNum n)
  | RStr s => Some (VStr s)
  | RPtr l =>
      match fuel with
      | O => None
      | S fuel' =>
          match h !! l with
          | Some (CArr es) => VArr <$> mapM (tree fuel' h) es
          | Some (CObj eps) =>
              VObj <$> mapM (λ p, (λ t, (p.1, t)) <$> tree fuel' h p.2) eps
          | None => None
          end
      end
  end.

Definition read (h : store) (r : ref) : option value := tree (S (length h)) h r.

(** [JSON.parse] of the text of a tree: every array and object of the
    tree becomes a new cell, the parts before the whole. *)
Fixpoint store_parse (t : value) (h : store) : store * ref :=
  match t with
  | VUndef => (h, RUndef)
  | VNull => (h, RNull)
  | VBool b => (h, RBool b)
  | VNum n => (h, RNum n)
  | VStr s => (h, RStr s)
  | VArr ts =>
      let '(h1, es) :=
        (fix go (ts : list value) (h : store) : store * list ref :=
           match ts with
           | [] => (h, [])
           | t :: ts' =>
               let '(h1, e) := store_parse t h in
               let '(h2, es) := go ts' h1 in
               (h2, e :: es)
           end) ts h in
      (h1 ++ [CArr es], RPtr (length h1))
  | VObj ps =>
      let '(h1, eps) :=
        (fix go (ps : list (string * value)) (h : store) : store * list (string * ref) :=
           match ps with
           | [] => (h, [])
           | p :: ps' =>
               let '(h1, e) := store_parse p.2 h in
               let '(h2, eps) := go ps' h1 in
               (h2, (p.1, e) :: eps)
           end) ps h in
      (h1 ++ [CObj eps], RPtr (length h1))
  end.

(** [JSON.parse(JSON.stringify(item))]: a structure with a cycle makes
    [JSON.stringify] throw a TypeError. *)
Definition store_json_roundtrip (h : store) (item : ref) : result (store * ref) :=
  match read h item with
  | None => Throw TypeError
  | Some t => c <- json_roundtrip t ;; Ok (store_parse c h)
  end.

Definition store_get (h : store) (r : ref) (k : string) : result ref :=
  match r with
  | RUndef | RNull => Throw TypeError
  | RPtr l =>
      match h !! l with
      | Some (CObj eps) => Ok (default RUndef (own k eps))
      | _ => Ok RUndef
      end
  | _ => Ok RUndef
  end.

Definition store_delete (h : store) (r : ref) (k : string) : result store :=
  match r with
  | RUndef | RNull => Throw TypeError
  | RPtr l =>
      match h !! l with
      | Some (CObj eps) => Ok (<[l := CObj (remove k eps)]> h)
      | _ => Ok h
      end
  | _ => Ok h
  end.

Fixpoint store_delete_path (h : store) (r : ref) (path : list string) (k : string)
  : result store :=
  match path with
  | [] => store_delete h r k
  | p :: rest => child <- store_get h r p ;; store_delete_path h child rest k
  end.

Definition ref_nullish (r : ref) : bool :=
  match r with
  | RUndef | RNull => true
  | _ => false
  end.

Definition store_cleanKesItem (h : store) (item : ref) : result (store * ref) :=
  hc <- store_json_roundtrip h item ;;
  let copy := hc.2 in
  h <- store_delete_path hc.1 copy ["metadata"] "creationTimestamp" ;;
  h <- store_delete_path h copy ["metadata"] "generation" ;;
  h <- store_delete_path h copy ["metadata"] "resourceVersion" ;;
  h <- store_delete_path h copy ["metadata"] "uid" ;;
  h <- store_delete_path h copy ["metadata"] "selfLink" ;;
  h <- (md <- store_get h copy "metadata" ;;
        ann <- store_get h md "annotations" ;;
        if ref_nullish ann then Ok h
        else store_delete_path h copy ["metadata"; "annotations"] last_applied) ;;
  h <- store_delete_path h copy [] "status" ;;
  Ok (h, copy).

(** ** Trees laid out in the store

    [rep g t lo hi r]: the reference [r] stands for the tree [t] in the
    store [g], every cell of it lies in the addresses [lo .. hi - 1],
    a cell lies above the cells of its parts, and the parts of a cell
    lie in consecutive, disjoint ranges. *)
Section chain.
Context {A : Type} (R : A → nat → nat → ref → Prop).

Fixpoint chain (ts : list A) (lo hi : nat) (es : list ref) : Prop :=
  match ts, es with
  | [], [] => lo ≤ hi
  | t :: ts', e :: es' => ∃ mid, R t lo mid e ∧ chain ts' mid hi es'
  | _, _ => False
  end.
End chain.

Fixpoint rep (g : store) (t : value) (lo hi : nat) (r : ref) : Prop :=
  match t with
  | VUndef => r = RUndef ∧ lo ≤ hi
  | VNull => r = RNull ∧ lo ≤ hi
  | VBool b => r = RBool b ∧ lo ≤ hi
  | VNum n => r = RNum n ∧ lo ≤ hi
  | VStr s => r = RStr s ∧ lo ≤ hi
  | VArr ts =>
      ∃ l es, r = RPtr l ∧ g !! l = Some (CArr es) ∧ l < hi
              ∧ chain (rep g) ts lo l es
  | VObj ps =>
      ∃ l eps, r = RPtr l ∧ g !! l = Some (CObj eps) ∧ l < hi
               ∧ eps.*1 = ps.*1
               ∧ chain (λ p, rep g p.2) ps lo l (eps.*2)
  end.

Definition agree (g g' : store) (lo hi : nat) : Prop :=
  ∀ l, lo ≤ l < hi → g' !! l = g !! l.

(** ** Allocation of the copy *)

Fixpoint parse_elems (ts : list value) (h : store) : store * list ref :=
  match ts with
  | [] => (h, [])
  | t :: ts' =>
      let '(h1, e) := store_parse t h in
      let '(h2, es) := parse_elems ts' h1 in
      (h2, e :: es)
  end.

Fixpoint parse_props (ps : list (string * value)) (h : store)
  : store * list (string * ref) :=
  match ps with
  | [] => (h, [])
  | p :: ps' =>
      let '(h1, e) := store_parse p.2 h in
      let '(h2, eps) := parse_props ps' h1 in
      (h2, (p.1, e) :: eps)
  end.

Definition parsed_at (t : value) (h : store) : Prop :=
  (∃ ext, (store_parse t h).1 = h ++ ext)
  ∧ rep (store_parse t h).1 t (length h) (length (store_parse t h).1) (store_parse t h).2.

(** ** Reads and deletes on a laid-out tree *)

Definition frame (g g' : store) (lo hi : nat) : Prop :=
  length g' = length g ∧ ∀ l, ¬ (lo ≤ l < hi) → g' !! l = g !! l.

(** ** The store version refines the tree version *)

(** How a step on the tree and the same step in the store correspond,
    for the copy laid out in [lo .. hi - 1] of a store that started as
    [g0]. *)
Definition sim (g0 : store) (lo hi : nat) (copy : ref)
    (rt : result value) (rg : result store) : Prop :=
  match rt with
  | Ok t' => ∃ g', rg = Ok g' ∧ rep g' t' lo hi copy ∧ frame g0 g' lo hi
  | Throw x => rg = Throw x
  end.

(** The same, for the whole function, which returns the copy with the
    store. *)
Definition sim_out (g0 : store) (lo hi : nat) (copy : ref)
    (rt : result value) (rg : result (store * ref)) : Prop :=
  match rt with
  | Ok t' => ∃ g', rg = Ok (g', copy) ∧ rep g' t' lo hi copy ∧ frame g0 g' lo hi
  | Throw x => rg = Throw x
  end.

(** The key [k] occurs in [v], at any depth. *)
Fixpoint occurs (k : string) (v : value) : bool :=
  match v with
  | VArr l => existsb (occurs k) l
  | VObj ps => existsb (λ p, String.eqb p.1 k || occurs k p.2) ps
  | _ => false
  end.

(** A legacy resource as [kubectl get -o yaml] prints it, with a label
    that is itself called [uid]. *)
Definition exported : value :=
  VObj [("apiVersion", VStr "kubernetes-client.io/v1");
        ("kind", VStr "ExternalSecret");
        ("metadata",
          VObj [("name", VStr "db-creds");
                ("uid", VStr "1b2c");
                ("resourceVersion", VStr "42");
                ("labels", VObj [("uid", VStr "1b2c")]);
                ("annotations",
                  VObj [(last_applied, VStr "{}"); ("team", VStr "db")])]);
        ("spec", VObj [("backendType", VStr "vault")]);
        ("status", VObj [("status", VStr "SUCCESS")])].

(** ** Inputs for the examples *)

Definition versioned_item : value :=
  VObj [("name", VStr "password");
        ("key", VStr "secret/db");
        ("versionId", VStr "v7");
        ("versionStage", VStr "AWSCURRENT");
        ("property", VStr "pw")].

Definition db_creds_path : string := "./converted/prod/db-creds.yaml".

Definition secret_list : value :=
  VObj [("apiVersion", VStr "v1");
        ("kind", VStr "List");
        ("items", VArr [db_creds; exported])].

Definition from_keys : value :=
  VObj [("apiVersion", VStr "kubernetes-client.io/v1");
        ("kind", VStr "ExternalSecret");
        ("metadata", VObj [("name", VStr "app")]);
        ("spec", VObj [("backendType", VStr "vault");
                       ("dataFrom", VArr [VStr "foo"; VStr "bar"])])].

(** The exported resource, parsed into an empty store. *)
Definition exported_store : store := (store_parse exported []).1.
Definition exported_ref : ref := (store_parse exported []).2.

(** * Notions used in the further properties *)

(** A legacy resource with a template, versioned data and a list of
    keys. *)
Definition templated : value :=
  VObj [("apiVersion", VStr "kubernetes-client.io/v1");
        ("kind", VStr "ExternalSecret");
        ("metadata", VObj [("name", VStr "api"); ("namespace", VStr "prod")]);
        ("spec",
          VObj [("backendType", VStr "secretsManager");
                ("template", VObj [("type", VStr "kubernetes.io/tls")]);
                ("data", VArr [versioned_item;
                               VObj [("name", VStr "user"); ("key", VStr "secret/user")]]);
                ("dataFrom", VArr [VStr "shared/env"])])].

(** A legacy resource whose [data] is a mapping, not a sequence. *)
Definition data_as_map : value :=
  VObj [("apiVersion", VStr "kubernetes-client.io/v1");
        ("kind", VStr "ExternalSecret");
        ("metadata", VObj [("name", VStr "api")]);
        ("spec", VObj [("backendType", VStr "vault");
                       ("data", VObj [("password", VStr "secret/db")])])].

(** The console line of one write. *)
Definition writing_line (o : string * string) : console_call :=
  ConsoleLog [VStr "Writing to"; VStr o.1].

(** The lines the filter prints for a list of candidates. *)
Definition diagnostics (cands : list value) : list console_call :=
  omap diagnostic cands.

(** A resource whose namespace is a number: [path.resolve] rejects it. *)
Definition numbered_namespace : value :=
  VObj [("apiVersion", VStr "kubernetes-client.io/v1");
        ("kind", VStr "ExternalSecret");
        ("metadata", VObj [("name", VStr "n"); ("namespace", VNum 7)]);
        ("spec", VObj [("backendType", VStr "vault")])].

Definition deployment : value :=
  VObj [("apiVersion", VStr "kubernetes-client.io/v1");
        ("kind", VStr "Deployment");
        ("metadata", VObj [("name", VStr "web")])].

(** The targets of the example resources, computed by the model. *)
Definition target_or_undefined (cfg : flags) (item : value) : value :=
  match kes <- cleanKesItem item ;; transform cfg kes with
  | Ok eso => eso
  | Throw _ => VUndef
  end.

Definition templated_eso : value :=
  Eval vm_compute in target_or_undefined default_flags templated.

Definition numbered_namespace_eso : value :=
  Eval vm_compute in target_or_undefined default_flags numbered_namespace.

Definition exported_clean : value :=
  Eval vm_compute in
    match cleanKesItem exported with Ok c => c | Throw _ => VUndef end.

(** A world that already holds a converted file and a file of its own. *)
Definition used_world : world :=
  {| console := [];
     dirs := {[ "./converted/prod" ]};
     files := {[ "./converted/prod/db-creds.yaml" := "stale"; "./notes.txt" := "mine" ]} |}.

(** ** Further notions and inputs *)

(** The [console.warn] calls on the console. *)
Definition is_warning (c : console_call) : bool :=
  match c with
  | ConsoleWarn _ => true
  | _ => false
  end.

Definition warnings (w : world) : list console_call :=
  List.filter is_warning (console w).

Definition is_sequence (v : value) : bool :=
  match v with
  | VArr _ => true
  | _ => false
  end.

(** A document that is itself a sequence, and one whose [items] is a
    string. *)
Definition sequence_document : value := VArr [config_map; db_creds].

Definition items_as_text : value :=
  VObj [("kind", VStr "Note"); ("items", VStr "abc")].

(** Candidates whose [metadata] is a string: one eligible, one not. *)
Definition scalar_metadata : value :=
  VObj [("apiVersion", VStr "kubernetes-client.io/v1");
        ("kind", VStr "ExternalSecret");
        ("metadata", VStr "x");
        ("spec", VObj [("backendType", VStr "vault")])].

Definition scalar_metadata_pod : value :=
  VObj [("apiVersion", VStr "v1");
        ("kind", VStr "Pod");
        ("metadata", VStr "x")].

Definition scalar_metadata_eso : value :=
  Eval vm_compute in target_or_undefined default_flags scalar_metadata.

(** * Properties *)

#[local] Arguments String.eqb : simpl never.
#[local] Arguments field_of : simpl never.

(** Decide the comparisons between two string literals in the goal. *)
Ltac eqb_lit :=
  repeat match goal with
    | |- context [String.eqb ?a ?b] =>
        let r := eval vm_compute in (String.eqb a b) in
        match r with
        | true => change (String.eqb a b) with true
        | false => change (String.eqb a b) with false
        end
    end.

(** Decide a comparison of a literal with a name known to differ. *)
Ltac eqb_ne :=
  repeat match goal with
    | |- context [String.eqb ?a ?b] =>
        let E := fresh "E" in
        destruct (String.eqb a b) eqn:E;
        [by apply String.eqb_eq in E|clear E]
    end.

(** ** Own properties under removal, replacement and extension *)

Lemma own_remove_eq {A} k (ps : list (string * A)) : own k (remove k ps) = None.
Proof.
  induction ps as [|[k' v] ps IH]; simpl; [done|].
  destruct (String.eqb k' k) eqn:E; simpl; [done|].
  by rewrite E.
Qed.

Lemma own_remove_ne {A} k k' (ps : list (string * A)) :
  k ≠ k' → own k' (remove k ps) = own k' ps.
Proof.
  intros Hne. induction ps as [|[k0 v] ps IH]; simpl; [done|].
  destruct (String.eqb k0 k) eqn:E; simpl.
  - apply String.eqb_eq in E as ->.
    destruct (String.eqb k k') eqn:E'; [by apply String.eqb_eq in E'|done].
  - by rewrite IH.
Qed.

Lemma own_replace_eq {A} k (x : A) ps : own k (replace k x ps) = (λ _, x) <$> own k ps.
Proof.
  induction ps as [|[k' v] ps IH]; simpl; [done|].
  destruct (String.eqb k' k) eqn:E; simpl; by rewrite E.
Qed.

Lemma own_replace_ne {A} k k' (x : A) ps :
  k ≠ k' → own k' (replace k x ps) = own k' ps.
Proof.
  intros Hne. induction ps as [|[k0 v] ps IH]; simpl; [done|].
  destruct (String.eqb k0 k) eqn:E; simpl.
  - apply String.eqb_eq in E as ->.
    by destruct (String.eqb k k') eqn:E'; [apply String.eqb_eq in E'|].
  - by rewrite IH.
Qed.

Lemma own_app {A} k (ps qs : list (string * A)) :
  own k (ps ++ qs) = match own k ps with Some v => Some v | None => own k qs end.
Proof.
  induction ps as [|[k' v] ps IH]; simpl; [done|].
  by destruct (String.eqb k' k).
Qed.

Lemma get_nonnullish v k : nullish v = false → get v k = Ok (field_of v k).
Proof. by destruct v. Qed.

Lemma get_Ok_nonnullish v k x : get v k = Ok x → nullish v = false.
Proof. by destruct v. Qed.

Lemma get_throws v k e : get v k = Throw e → e = TypeError ∧ nullish v = true.
Proof. destruct v; simpl; intros; by simplify_eq. Qed.

Lemma truthy_nonnullish v : truthy v = true → nullish v = false.
Proof. by destruct v. Qed.

(** ** [JSON.parse(JSON.stringify(v))] is the identity where [undefined]
    does not occur *)

Lemma json_copy_id v : json_like v = true → json_copy v = v.
Proof.
  induction v as [| | | | |l IH|ps IH] using value_ind; simpl; intros Hj; try done.
  - f_equal. induction IH as [|x l Hx _ IHl]; [done|].
    simpl in Hj. apply andb_true_iff in Hj as [Hjx Hjl].
    rewrite IHl by done. rewrite Hx by done. by destruct x.
  - f_equal. induction IH as [|[k x] ps Hx _ IHl]; [done|].
    simpl in Hj, Hx. apply andb_true_iff in Hj as [Hjx Hjl].
    rewrite IHl by done. rewrite Hx by done. by destruct x.
Qed.

Lemma json_roundtrip_id v : json_like v = true → json_roundtrip v = Ok v.
Proof. intros Hj. destruct v; try done; unfold json_roundtrip; by rewrite json_copy_id. Qed.

(** ** Remote references *)

Lemma js_or_first_truthy v1 v2 v3 :
  let version := js_or (js_or v1 v2) v3 in
  (if truthy version then Some version else None) = first_truthy [v1; v2; v3].
Proof.
  unfold js_or, first_truthy; simpl.
  destruct (truthy v1) eqn:E1, (truthy v2) eqn:E2, (truthy v3) eqn:E3;
    repeat (simpl; rewrite ?E1, ?E2, ?E3); done.
Qed.

Lemma createRemoteRef_ok dataItem :
  nullish dataItem = false → createRemoteRef dataItem = Ok (remote_ref_of dataItem).
Proof.
  intros Hn. unfold createRemoteRef, remote_ref_of.
  rewrite !get_nonnullish by done. simpl.
  pose proof (js_or_first_truthy (field_of dataItem "version")
                (field_of dataItem "versionId") (field_of dataItem "versionStage")) as Hv.
  simpl in Hv. rewrite <- Hv.
  by destruct (truthy (js_or _ _)), (truthy (field_of dataItem "property")).
Qed.

Lemma createRemoteRef_throws dataItem :
  nullish dataItem = true → createRemoteRef dataItem = Throw TypeError.
Proof. by destruct dataItem. Qed.

(** C5. For every remote-reference source (any value that is not
    [undefined] or [null]) [createRemoteRef] returns a reference whose
    [version] is the first non-empty (truthy) value among the source's
    [version], [versionId], [versionStage] in that order and is absent
    when none is; whose [property] is the source's [property] when
    present (truthy) and absent otherwise; and whose [key] is the
    source's [key] unvalidated: with no [key] in the source the
    reference is still produced and carries [key: undefined]. *)
Theorem createRemoteRef_precedence (dataItem : value) :
  nullish dataItem = false →
  ∃ ref,
    createRemoteRef dataItem = Ok (VObj ref)
    ∧ own "key" ref = Some (field_of dataItem "key")
    ∧ own "version" ref
      = first_truthy [field_of dataItem "version";
                      field_of dataItem "versionId";
                      field_of dataItem "versionStage"]
    ∧ own "property" ref
      = (if truthy (field_of dataItem "property")
         then Some (field_of dataItem "property") else None)
    ∧ (∀ k, k ≠ "key" → k ≠ "version" → k ≠ "property" → own k ref = None).
Proof.
  intros Hn. rewrite createRemoteRef_ok by done. unfold remote_ref_of.
  set (fv := first_truthy _). clearbody fv.
  eexists; split; [reflexivity|].
  destruct fv as [v|], (truthy (field_of dataItem "property"));
    simpl; eqb_lit; repeat split; try done;
    intros k H1 H2 H3; by eqb_ne.
Qed.

(** ** Mapping with a callback that may throw *)

Lemma mapR_ok {A B} (f : A → result B) (g : A → B) (l : list A) :
  Forall (λ x, f x = Ok (g x)) l → mapR f l = Ok (List.map g l).
Proof.
  induction 1 as [|x l Hx _ IH]; simpl; [done|]. by rewrite Hx, IH.
Qed.

Lemma mapR_Forall2 {A B} (f : A → result B) (l : list A) (ys : list B) :
  mapR f l = Ok ys ↔ Forall2 (λ x y, f x = Ok y) l ys.
Proof.
  revert ys. induction l as [|x l IH]; intros ys; simpl.
  - split; [intros [= <-]; constructor|by inversion 1].
  - split.
    + destruct (f x) as [y|] eqn:Hx; simpl; [|done].
      destruct (mapR f l) as [ys'|] eqn:Hl; simpl; [|done].
      intros [= <-]. constructor; [done|]. by apply IH.
    + inversion 1 as [|? y ? ys' Hx Hl]; subst. rewrite Hx. simpl.
      apply IH in Hl. by rewrite Hl.
Qed.

Lemma mapR_throws {A B} (f : A → result B) (l : list A) e :
  mapR f l = Throw e → ∃ x, x ∈ l ∧ f x = Throw e.
Proof.
  induction l as [|x l IH]; simpl; [done|].
  destruct (f x) as [y|e'] eqn:Hx; simpl.
  - destruct (mapR f l) as [ys|e'] eqn:Hl; simpl; [done|].
    intros [= ->]. destruct IH as (x' & Hin & Hx'); [done|].
    exists x'. split; [by apply elem_of_cons; right|done].
  - intros [= ->]. exists x. split; [apply elem_of_cons; by left|done].
Qed.

Lemma mapR_elem_throws {A B} (f : A → result B) (l : list A) x e :
  x ∈ l → f x = Throw e → ∃ e', mapR f l = Throw e'.
Proof.
  intros Hin Hx. induction l as [|y l IH]; [by apply elem_of_nil in Hin|].
  apply elem_of_cons in Hin as [<-|Hin]; simpl.
  - rewrite Hx. by eexists.
  - destruct (f y); simpl; [|by eexists].
    destruct (IH Hin) as [e' ->]. by eexists.
Qed.

(** ** Transformation *)

Lemma transform_unfold cfg kes :
  truthy (field_of kes "spec") = true →
  transform cfg kes =
    (dpart <- optional_part "data" convertData (field_of (field_of kes "spec") "data") ;;
     fpart <- optional_part "dataFrom" convertDataFrom
                (field_of (field_of kes "spec") "dataFrom") ;;
     Ok (VObj [("apiVersion", VStr "external-secrets.io/v1alpha1");
               ("kind", VStr "ExternalSecret");
               ("metadata", field_of kes "metadata");
               ("spec", VObj (spec_head cfg (field_of kes "spec") ++ dpart ++ fpart)%list)])).
Proof.
  intros Hs. assert (nullish kes = false) as Hk by by destruct kes.
  pose proof (truthy_nonnullish _ Hs) as Hs'.
  unfold transform, optional_part, spec_head, store_kind.
  rewrite !(get_nonnullish kes) by done. simpl.
  rewrite !(get_nonnullish (field_of kes "spec")) by done. simpl.
  destruct (truthy (field_of (field_of kes "spec") "template")); simpl;
    (destruct (truthy (field_of (field_of kes "spec") "data")); simpl;
     [destruct (convertData _); simpl; [|done]|]);
    (destruct (truthy (field_of (field_of kes "spec") "dataFrom")); simpl;
     [destruct (convertDataFrom _); simpl; [|done]|]); done.
Qed.

Lemma convertData_ok l :
  forallb (λ x, negb (nullish x)) l = true →
  convertData (VArr l) = Ok (VArr (List.map data_entry l)).
Proof.
  intros Hl. unfold convertData, js_map.
  rewrite (mapR_ok _ data_entry); [done|].
  apply Forall_forall. intros x Hx.
  rewrite forallb_forall in Hl. apply list_elem_of_In, Hl, negb_true_iff in Hx.
  by rewrite get_nonnullish, createRemoteRef_ok.
Qed.

Lemma convertDataFrom_ok l :
  convertDataFrom (VArr l) = Ok (VArr (List.map wrap_key l)).
Proof.
  unfold convertDataFrom, js_map. by rewrite (mapR_ok _ wrap_key); [|apply Forall_true].
Qed.

Lemma transform_total cfg kes :
  truthy (field_of kes "spec") = true →
  data_convertible (field_of kes "spec") = true →
  ∃ dpart fpart,
    optional_part "data" convertData (field_of (field_of kes "spec") "data") = Ok dpart
    ∧ optional_part "dataFrom" convertDataFrom
        (field_of (field_of kes "spec") "dataFrom") = Ok fpart
    ∧ transform cfg kes =
        Ok (VObj [("apiVersion", VStr "external-secrets.io/v1alpha1");
                  ("kind", VStr "ExternalSecret");
                  ("metadata", field_of kes "metadata");
                  ("spec", VObj (spec_head cfg (field_of kes "spec") ++ dpart ++ fpart)%list)]).
Proof.
  intros Hs Hc. rewrite transform_unfold by done.
  unfold data_convertible in Hc. apply andb_true_iff in Hc as [Hd Hf].
  unfold optional_part.
  destruct (truthy (field_of (field_of kes "spec") "data")).
  - destruct (field_of (field_of kes "spec") "data") as [| | | | |l|]; try done.
    rewrite convertData_ok by done. simpl.
    destruct (truthy (field_of (field_of kes "spec") "dataFrom")).
    + destruct (field_of (field_of kes "spec") "dataFrom") as [| | | | |l'|]; try done.
      rewrite convertDataFrom_ok. simpl. by eexists _, _.
    + simpl. by eexists _, _.
  - simpl. destruct (truthy (field_of (field_of kes "spec") "dataFrom")).
    + destruct (field_of (field_of kes "spec") "dataFrom") as [| | | | |l'|]; try done.
      rewrite convertDataFrom_ok. simpl. by eexists _, _.
    + simpl. by eexists _, _.
Qed.

Lemma optional_part_keys k conv x part :
  optional_part k conv x = Ok part → ∀ k', k' ≠ k → own k' part = None.
Proof.
  unfold optional_part. intros Hp k' Hne.
  destruct (truthy x); [|by simplify_eq].
  destruct (conv x); simplify_eq/=. by eqb_ne.
Qed.

(** C6. A cleaned eligible resource (its [spec] is truthy) whose [data]
    and [dataFrom], when present, are sequences is transformed into a
    target resource with [apiVersion] [external-secrets.io/v1alpha1],
    [kind] [ExternalSecret], [spec.refreshInterval] the configured
    string, [spec.secretStoreRef.name] the legacy [spec.backendType]
    ([undefined] when the legacy resource has none, without an error),
    and [spec.secretStoreRef.kind] [ClusterSecretStore] when the cluster
    flag is set and [SecretStore] when it is not. *)
Theorem transform_fixed_fields (cfg : flags) (kes : value) :
  truthy (field_of kes "spec") = true →
  data_convertible (field_of kes "spec") = true →
  ∃ eso,
    transform cfg kes = Ok eso
    ∧ get eso "apiVersion" = Ok (VStr "external-secrets.io/v1alpha1")
    ∧ get eso "kind" = Ok (VStr "ExternalSecret")
    ∧ (espec <- get eso "spec" ;; get espec "refreshInterval") = Ok (VStr (refreshInterval cfg))
    ∧ (espec <- get eso "spec" ;; ref <- get espec "secretStoreRef" ;; get ref "name")
      = Ok (field_of (field_of kes "spec") "backendType")
    ∧ (espec <- get eso "spec" ;; ref <- get espec "secretStoreRef" ;; get ref "kind")
      = Ok (VStr (if cluster cfg then "ClusterSecretStore" else "SecretStore")).
Proof.
  intros Hs Hc.
  destruct (transform_total cfg kes Hs Hc) as (dpart & fpart & _ & _ & ->).
  eexists; split; [reflexivity|]. unfold spec_head, store_kind.
  simpl. eqb_lit. simpl. eqb_lit. simpl. eqb_lit. done.
Qed.

(** ** Cleaning, in closed form *)

Lemma delete_nonnullish v k : nullish v = false → delete v k = Ok (del v k).
Proof. by destruct v. Qed.

Lemma nullish_del v k : nullish (del v k) = nullish v.
Proof. by destruct v. Qed.

Lemma replace_replace {A} k (x y : A) ps :
  replace k x (replace k y ps) = replace k x ps.
Proof.
  induction ps as [|[k' v] ps IH]; simpl; [done|].
  destruct (String.eqb k' k) eqn:E; simpl; rewrite E; [done|by rewrite IH].
Qed.

Lemma field_of_obj k ps : field_of (VObj ps) k = default VUndef (own k ps).
Proof. done. Qed.

Lemma delete_path_one ps p c k :
  own p ps = Some c → nullish c = false →
  delete_path (VObj ps) [p] k = Ok (VObj (replace p (del c k) ps)).
Proof.
  intros Hp Hc. simpl. rewrite Hp. simpl. by rewrite delete_nonnullish.
Qed.

Lemma cleanKesItem_closed ps md :
  json_like (VObj ps) = true →
  own "metadata" ps = Some md → nullish md = false →
  cleanKesItem (VObj ps)
  = Ok (VObj (remove "status" (replace "metadata" (strip_metadata md) ps))).
Proof.
  intros Hj Hmd Hn. unfold cleanKesItem.
  rewrite json_roundtrip_id by done. cbn [result_bind].
  assert (∀ m k (K : value → result value),
    nullish m = false →
    result_bind (delete_path (VObj (replace "metadata" m ps)) ["metadata"] k) K
    = K (VObj (replace "metadata" (del m k) ps))) as Hstep.
  { intros m k K Hm. rewrite (delete_path_one _ _ m); [|by rewrite own_replace_eq, Hmd|done].
    by rewrite replace_replace. }
  rewrite (delete_path_one _ _ md) by done. cbn [result_bind].
  do 4 (rewrite Hstep by by rewrite ?nullish_del).
  set (m5 := del (del (del (del (del md _) _) _) _) _).
  assert (nullish m5 = false) as Hm5 by by (unfold m5; rewrite !nullish_del).
  assert (own "metadata" (replace "metadata" m5 ps) = Some m5) as Hown
    by by rewrite own_replace_eq, Hmd.
  unfold strip_metadata. change (foldl del md managed_fields) with m5.
  cbn [get default]. rewrite Hown. cbn [result_bind default].
  rewrite (get_nonnullish m5) by done. cbn [result_bind].
  destruct (nullish (field_of m5 "annotations")) eqn:Hann.
  - cbn [delete_path result_bind]. by rewrite delete_nonnullish.
  - cbn [delete_path get result_bind default]. rewrite Hown. cbn [result_bind default].
    rewrite (get_nonnullish m5) by done. cbn [result_bind].
    rewrite delete_nonnullish by done. cbn [result_bind with_prop].
    by rewrite replace_replace.
Qed.

Lemma has_prop_del_eq v k : has_prop (del v k) k = false.
Proof.
  destruct v; simpl; try done. rewrite own_remove_eq.
  apply bool_decide_eq_false. by intros [? ?].
Qed.

Lemma has_prop_del_ne v k k' : k ≠ k' → has_prop (del v k) k' = has_prop v k'.
Proof. intros Hne. destruct v; simpl; try done. by rewrite own_remove_ne. Qed.

Lemma field_of_del_ne v k k' : k ≠ k' → field_of (del v k) k' = field_of v k'.
Proof.
  intros Hne. destruct v; try done. simpl. by rewrite !field_of_obj, own_remove_ne.
Qed.

Lemma has_prop_with_prop v k x k' : has_prop (with_prop v k x) k' = has_prop v k'.
Proof.
  destruct v; simpl; try done.
  destruct (decide (k = k')) as [->|Hne].
  - rewrite own_replace_eq. by destruct (own k' props).
  - by rewrite own_replace_ne.
Qed.

Lemma field_of_with_prop_ne v k x k' :
  k ≠ k' → field_of (with_prop v k x) k' = field_of v k'.
Proof.
  intros Hne. destruct v; try done. simpl. by rewrite !field_of_obj, own_replace_ne.
Qed.

Lemma field_of_with_prop_eq v k x :
  has_prop v k = true → field_of (with_prop v k x) k = x.
Proof.
  destruct v; try done. simpl. rewrite field_of_obj, own_replace_eq.
  intros [? ->]%bool_decide_eq_true. done.
Qed.

Lemma strip_metadata_managed md k :
  k ∈ managed_fields → has_prop (strip_metadata md) k = false.
Proof.
  intros Hk. unfold strip_metadata.
  assert (has_prop (foldl del md managed_fields) k = false) as Hm.
  { unfold managed_fields in *. simpl.
    repeat (apply elem_of_cons in Hk as [->|Hk];
            [by rewrite ?has_prop_del_ne by done; rewrite has_prop_del_eq|]).
    by apply elem_of_nil in Hk. }
  destruct (nullish _); [done|]. by rewrite has_prop_with_prop.
Qed.

Lemma strip_metadata_other md k :
  k ∉ managed_fields → k ≠ "annotations" →
  field_of (strip_metadata md) k = field_of md k.
Proof.
  intros Hk Ha. unfold strip_metadata.
  assert (field_of (foldl del md managed_fields) k = field_of md k) as Hm.
  { unfold managed_fields in *. simpl.
    rewrite !field_of_del_ne; [done|..]; intros <-; apply Hk; set_solver. }
  destruct (nullish _); [done|]. by rewrite field_of_with_prop_ne.
Qed.

Lemma strip_metadata_annotations md k :
  k ≠ last_applied →
  field_of (field_of (strip_metadata md) "annotations") k
  = field_of (field_of md "annotations") k.
Proof.
  intros Hk. unfold strip_metadata.
  assert (field_of (foldl del md managed_fields) "annotations" = field_of md "annotations")
    as Hm by (unfold managed_fields; simpl; by rewrite !field_of_del_ne).
  destruct (nullish _) eqn:Hn; [by rewrite Hm|].
  rewrite field_of_with_prop_eq.
  - by rewrite field_of_del_ne, Hm.
  - destruct (foldl del md managed_fields) as [| | | | | |ps]; try done.
    rewrite field_of_obj in Hn. simpl. destruct (own "annotations" ps); [|done].
    by apply bool_decide_eq_true.
Qed.

Lemma strip_metadata_last_applied md :
  has_prop (field_of (strip_metadata md) "annotations") last_applied = false.
Proof.
  unfold strip_metadata.
  destruct (nullish (field_of _ "annotations")) eqn:Hn.
  - by destruct (field_of _ "annotations").
  - rewrite field_of_with_prop_eq; [apply has_prop_del_eq|].
    destruct (foldl del md managed_fields) as [| | | | | |ps]; try done.
    rewrite field_of_obj in Hn. simpl. destruct (own "annotations" ps); [|done].
    by apply bool_decide_eq_true.
Qed.

Lemma nullish_strip_metadata md : nullish (strip_metadata md) = nullish md.
Proof.
  unfold strip_metadata, managed_fields. simpl.
  destruct (nullish (field_of _ "annotations")).
  - by rewrite !nullish_del.
  - destruct md; try done.
Qed.

(** ** Eligibility filter *)

Lemma eligible_nonnullish item : eligible item = true → nullish item = false.
Proof. by destruct item. Qed.

Lemma diagnostic_eligible item : eligible item = true → diagnostic item = None.
Proof.
  unfold eligible, diagnostic, api_version, kind_name.
  intros [[-> ->]%andb_true_iff ->]%andb_true_iff. done.
Qed.

Lemma diagnostic_ineligible item : eligible item = false → is_Some (diagnostic item).
Proof.
  unfold eligible, diagnostic, api_version, kind_name.
  destruct (strict_eq (field_of item "apiVersion") _); simpl; [|by eexists].
  destruct (strict_eq (field_of item "kind") _); simpl; [|by eexists].
  destruct (truthy (field_of item "spec")); simpl; [done|by eexists].
Qed.

Lemma keep_eligible item w : eligible item = true → keep item w = (Ok true, w).
Proof.
  intros He. pose proof (eligible_nonnullish _ He) as Hn.
  unfold eligible in He.
  apply andb_true_iff in He as [[Ha Hk]%andb_true_iff Hs].
  unfold keep, orM, fail, bind, lift, ret. simpl.
  rewrite !(get_nonnullish item) by done. by rewrite Ha, Hk, Hs.
Qed.

Lemma keep_ineligible item w :
  eligible item = false → has_metadata item = true →
  keep item w = (Ok false, printed (diagnostic item) w).
Proof.
  intros He [Hn Hm]%andb_true_iff. apply negb_true_iff in Hn, Hm.
  unfold eligible in He. unfold diagnostic, name_of, api_version, kind_name.
  unfold keep, orM, fail, bind, lift, ret, console_error, emit. simpl.
  rewrite !(get_nonnullish item) by done.
  rewrite !(get_nonnullish (field_of item "metadata")) by done.
  destruct (strict_eq (field_of item "apiVersion") _); simpl; [|done].
  destruct (strict_eq (field_of item "kind") _); simpl; [|done].
  destruct (truthy (field_of item "spec")); simpl; done.
Qed.

Lemma keep_no_metadata item w :
  eligible item = false → has_metadata item = false →
  keep item w = (Throw TypeError, w).
Proof.
  intros He Hm. unfold keep, orM, fail, bind, lift, ret. simpl.
  destruct (nullish item) eqn:Hn; [by destruct item|].
  unfold has_metadata in Hm. rewrite Hn in Hm. simpl in Hm. apply negb_false_iff in Hm.
  assert (get item "metadata" = Ok (field_of item "metadata")) as Hg
    by by apply get_nonnullish.
  assert (∀ k, get (field_of item "metadata") k = Throw TypeError) as Hthrow
    by (intros k; by destruct (field_of item "metadata")).
  unfold eligible in He.
  rewrite !(get_nonnullish item _ Hn).
  destruct (strict_eq (field_of item "apiVersion") _); simpl; [|by rewrite Hthrow].
  destruct (strict_eq (field_of item "kind") _); simpl; [|by rewrite Hthrow].
  destruct (truthy (field_of item "spec")); simpl; [done|by rewrite Hthrow].
Qed.

Lemma printed_fs c w : dirs (printed c w) = dirs w ∧ files (printed c w) = files w.
Proof. by destruct c. Qed.

Lemma printed_all_fs cands w :
  dirs (printed_all cands w) = dirs w ∧ files (printed_all cands w) = files w.
Proof.
  revert w. induction cands as [|c cands IH]; intros w; simpl; [done|].
  destruct (IH (printed (diagnostic c) w)) as [-> ->]. apply printed_fs.
Qed.

(** When [item.metadata.name] can be read on every ineligible candidate,
    the filter keeps exactly the eligible ones and prints one diagnostic
    for each of the others. *)
Lemma filterM_keep_ok cands w :
  Forall (λ c, eligible c = false → has_metadata c = true) cands →
  filterM keep cands w = (Ok (List.filter eligible cands), printed_all cands w).
Proof.
  intros Hall. revert w. induction Hall as [|c cands Hc _ IH]; intros w; [done|].
  simpl. unfold bind at 1. destruct (eligible c) eqn:He.
  - rewrite keep_eligible by done. unfold bind. rewrite IH.
    by rewrite diagnostic_eligible.
  - rewrite keep_ineligible by auto. unfold bind. by rewrite IH.
Qed.

(** Otherwise the filter stops with a TypeError at the first ineligible
    candidate without metadata; nothing but the console has changed. *)
Lemma filterM_keep_throws cands w :
  Exists (λ c, eligible c = false ∧ has_metadata c = false) cands →
  ∃ w', filterM keep cands w = (Throw TypeError, w')
        ∧ dirs w' = dirs w ∧ files w' = files w.
Proof.
  intros Hex. revert w. induction cands as [|c cands IH]; intros w; [by inversion Hex|].
  simpl. unfold bind at 1.
  destruct (eligible c) eqn:He.
  - rewrite keep_eligible by done.
    apply Exists_cons in Hex as [[? _]|Hex]; [congruence|].
    destruct (IH Hex w) as (w' & Hw' & ? & ?).
    unfold bind. rewrite Hw'. eauto.
  - destruct (has_metadata c) eqn:Hm.
    + rewrite keep_ineligible by done.
      apply Exists_cons in Hex as [[_ ?]|Hex]; [congruence|].
      destruct (IH Hex (printed (diagnostic c) w)) as (w' & Hw' & Hd & Hf).
      unfold bind. rewrite Hw'. exists w'. split; [done|].
      destruct (printed_fs (diagnostic c) w) as [<- <-]. done.
    + rewrite keep_no_metadata by done. eauto.
Qed.

(** ** Flattening *)

Lemma flatten_doc_ok doc :
  nullish doc = false →
  flatten_doc doc = Ok (if truthy (field_of doc "items") then field_of doc "items" else doc).
Proof.
  intros Hn. unfold flatten_doc. rewrite get_nonnullish by done. simpl.
  by destruct (truthy _).
Qed.

Lemma flatMap_flatten_doc_ok docs :
  Forall (λ d, nullish d = false) docs →
  flatMap flatten_doc docs = Ok (concat (List.map contribution docs)).
Proof.
  intros Hall. unfold flatMap.
  rewrite (mapR_ok _ (λ doc, if truthy (field_of doc "items")
                             then field_of doc "items" else doc)).
  - simpl. by rewrite List.map_map.
  - eapply Forall_impl; [done|]. intros d Hd. by apply flatten_doc_ok.
Qed.

Lemma flatten_ok inputs :
  Forall (Forall (λ d, nullish d = false)) inputs →
  flatten inputs = Ok (concat (List.map (λ docs, concat (List.map contribution docs)) inputs)).
Proof.
  intros Hall. unfold flatten, flatMap.
  rewrite (mapR_ok _ (λ docs, VArr (concat (List.map contribution docs)))).
  - simpl. by rewrite List.map_map.
  - eapply Forall_impl; [done|]. intros docs Hd. simpl.
    pose proof (flatMap_flatten_doc_ok docs Hd) as E. unfold flatMap in E.
    by rewrite E.
Qed.

Lemma flatten_doc_exn doc e : flatten_doc doc = Throw e → e = TypeError.
Proof.
  unfold flatten_doc. destruct (get doc "items") as [i|e'] eqn:Hg; simpl.
  - by destruct (truthy i).
  - intros [= <-]. by apply get_throws in Hg as [-> _].
Qed.

Lemma flatMap_exn {A} (f : A → result value) (xs : list A) e0 e :
  (∀ x e', x ∈ xs → f x = Throw e' → e' = e0) →
  flatMap f xs = Throw e → e = e0.
Proof.
  intros Hf. unfold flatMap. destruct (mapR f xs) as [rs|e'] eqn:Hm; simpl; [done|].
  intros [= <-]. apply mapR_throws in Hm as (x & Hin & Hx). eauto.
Qed.

Lemma flatMap_elem_throws {A} (f : A → result value) (xs : list A) x e :
  x ∈ xs → f x = Throw e → ∃ e', flatMap f xs = Throw e'.
Proof.
  intros Hin Hx. unfold flatMap.
  destruct (mapR_elem_throws f xs x e Hin Hx) as [e' ->]. by eexists.
Qed.

Lemma flatMap_flatten_doc_throws docs :
  Exists (λ d, nullish d = true) docs → flatMap flatten_doc docs = Throw TypeError.
Proof.
  intros (d & Hin & Hd)%Exists_exists.
  destruct (flatMap_elem_throws flatten_doc docs d TypeError Hin) as [e He];
    [by destruct d|].
  rewrite He. f_equal. eapply flatMap_exn; [|done].
  intros ???. apply flatten_doc_exn.
Qed.

Lemma flatten_throws inputs :
  Exists (Exists (λ d, nullish d = true)) inputs → flatten inputs = Throw TypeError.
Proof.
  intros (docs & Hin & Hd)%Exists_exists. unfold flatten.
  edestruct (flatMap_elem_throws
               (λ documents, cs <- flatMap flatten_doc documents ;; Ok (VArr cs))
               inputs docs TypeError Hin) as [e He].
  { by rewrite flatMap_flatten_doc_throws. }
  rewrite He. f_equal. eapply flatMap_exn; [|done].
  intros docs' e' _. cbv beta.
  destruct (flatMap flatten_doc docs') as [cs|e''] eqn:Hc; simpl; [done|].
  intros [= <-]. eapply flatMap_exn; [|done]. intros ???. apply flatten_doc_exn.
Qed.

Lemma flatten_Ok_nonnullish inputs cands :
  flatten inputs = Ok cands → Forall (Forall (λ d, nullish d = false)) inputs.
Proof.
  intros Hf.
  destruct (decide (Exists (Exists (λ d, nullish d = true)) inputs)) as [Hex|Hnex].
  - by rewrite flatten_throws in Hf.
  - apply not_Exists_Forall in Hnex; [|intros ?; apply _].
    eapply Forall_impl; [done|]. intros docs Hd. unfold compose in Hd.
    apply not_Exists_Forall in Hd; [|intros ?; apply _].
    eapply Forall_impl; [done|]. intros d Hd'. unfold compose in Hd'.
    by destruct (nullish d).
Qed.

Lemma flatten_exn inputs e : flatten inputs = Throw e → e = TypeError.
Proof.
  unfold flatten. apply flatMap_exn.
  intros docs' e' _. cbv beta.
  destruct (flatMap flatten_doc docs') as [cs|e''] eqn:Hc; simpl; [done|].
  intros [= <-]. eapply flatMap_exn; [|done]. intros ???. apply flatten_doc_exn.
Qed.

Lemma contribution_regular doc :
  regular_doc doc = true → contribution doc = candidates_spec doc.
Proof.
  unfold regular_doc, contribution, candidates_spec.
  intros [[Hn Ha]%andb_true_iff Hi]%andb_true_iff.
  destruct (field_of doc "items") eqn:E; simpl in *; try done;
    try by destruct doc.
  - destruct b; [done|]. by destruct doc.
  - destruct (n =? 0)%Z; [|done]. by destruct doc.
  - destruct (String.eqb s ""); [|done]. by destruct doc.
Qed.

(** On inputs whose documents are all regular the code and the rule
    of the specification give the same candidates. *)
Lemma flatten_on_regular (inputs : list (list value)) :
  Forall (Forall (λ d, regular_doc d = true)) inputs →
  flatten inputs = Ok (flatten_spec inputs).
Proof.
  intros Hall. rewrite flatten_ok.
  - unfold flatten_spec. do 2 f_equal. apply map_ext_Forall.
    eapply Forall_impl; [done|]. intros docs Hd. simpl. f_equal.
    apply map_ext_Forall. eapply Forall_impl; [done|].
    intros d Hr. by apply contribution_regular.
  - eapply Forall_impl; [done|]. intros docs Hd.
    eapply Forall_impl; [done|]. intros d Hr. simpl in Hr.
    unfold regular_doc in Hr. by destruct (nullish d).
Qed.

(** C9 (amended). Flattening, document by document.  With no null
    document in any file it returns, in file order and document order,
    the concatenation of what each document contributes: the elements
    of [items], in order, when [items] is a sequence; the elements of
    the document when the document is itself a sequence; the value of
    [items] as one candidate when it is truthy and not a sequence; and
    the document itself, as one candidate, otherwise.  On the regular
    documents that is the rule of the specification.  With a null
    document in some file it throws a TypeError. *)
Theorem flatten_per_document (inputs : list (list value)) :
  (Forall (Forall (λ d, nullish d = false)) inputs →
   flatten inputs
   = Ok (concat (List.map (λ docs, concat (List.map contribution docs)) inputs)))
  ∧ (Exists (Exists (λ d, nullish d = true)) inputs → flatten inputs = Throw TypeError)
  ∧ (∀ doc l, field_of doc "items" = VArr l → contribution doc = l)
  ∧ (∀ ts, contribution (VArr ts) = ts)
  ∧ (∀ doc, truthy (field_of doc "items") = true →
       is_sequence (field_of doc "items") = false →
       contribution doc = [field_of doc "items"])
  ∧ (∀ doc, truthy (field_of doc "items") = false →
       is_sequence doc = false →
       contribution doc = [doc])
  ∧ (∀ doc, regular_doc doc = true → contribution doc = candidates_spec doc)
  ∧ (Forall (Forall (λ d, regular_doc d = true)) inputs →
     flatten inputs = Ok (flatten_spec inputs)).
Proof.
  split; [apply flatten_ok|]. split; [apply flatten_throws|].
  split; [|split; [|split; [|split; [|split]]]].
  - intros doc l Hl. unfold contribution. by rewrite Hl.
  - done.
  - intros doc Ht Hs. unfold contribution. rewrite Ht.
    by destruct (field_of doc "items").
  - intros doc Ht Hs. unfold contribution. rewrite Ht. by destruct doc.
  - apply contribution_regular.
  - apply flatten_on_regular.
Qed.

(** C9, as stated, fails on a document that is itself a sequence:
    [flatMap] splices its elements in as two candidates, where the rule
    asks for the document as one candidate. *)
Lemma flatten_sequence_document :
  flatten [[VArr [VStr "a"; VStr "b"]]] = Ok [VStr "a"; VStr "b"]
  ∧ flatten_spec [[VArr [VStr "a"; VStr "b"]]] = [VArr [VStr "a"; VStr "b"]]
  ∧ flatten [[VArr [VStr "a"; VStr "b"]]] ≠ Ok (flatten_spec [[VArr [VStr "a"; VStr "b"]]]).
Proof. by repeat split. Qed.

(** ** Cleaning of the candidates that pass the filter *)

Lemma eligible_obj item : eligible item = true → ∃ ps, item = VObj ps.
Proof. destruct item; try done. by eexists. Qed.

Lemma cleanKesItem_ok item :
  json_like item = true → eligible item = true → has_metadata item = true →
  cleanKesItem item = Ok (cleaned item).
Proof.
  intros Hj [ps ->]%eligible_obj [_ Hm%negb_true_iff]%andb_true_iff.
  unfold cleaned. rewrite field_of_obj in *.
  destruct (own "metadata" ps) as [md|] eqn:Hmd; [|done].
  by apply cleanKesItem_closed.
Qed.

Lemma cleanKesItem_no_metadata item :
  json_like item = true → eligible item = true → has_metadata item = false →
  cleanKesItem item = Throw TypeError.
Proof.
  intros Hj He Hm. pose proof (eligible_nonnullish _ He) as Hn.
  unfold has_metadata in Hm. rewrite Hn in Hm. simpl in Hm. apply negb_false_iff in Hm.
  unfold cleanKesItem. rewrite json_roundtrip_id by done.
  cbn [result_bind delete_path]. rewrite get_nonnullish by done. cbn [result_bind].
  by destruct (field_of item "metadata").
Qed.

Lemma json_like_own k ps v :
  json_like (VObj ps) = true → own k ps = Some v → json_like v = true.
Proof.
  simpl. induction ps as [|[k' x] ps IH]; simpl; [done|].
  intros [Hx Hps]%andb_true_iff. destruct (String.eqb k' k); [by intros [= <-]|auto].
Qed.

Lemma contribution_json_like doc :
  json_like doc = true → Forall (λ c, json_like c = true) (contribution doc).
Proof.
  intros Hj. unfold contribution.
  assert (∀ v, json_like v = true → Forall (λ c, json_like c = true) (flat_one v)) as Hflat.
  { intros v Hv. destruct v; simpl; try (by repeat constructor).
    simpl in Hv. rewrite forallb_forall in Hv. apply Forall_forall.
    intros x Hx. by apply Hv, list_elem_of_In. }
  destruct (truthy (field_of doc "items")) eqn:Ht; [|by apply Hflat].
  apply Hflat. destruct doc; try done. rewrite field_of_obj in *.
  destruct (own "items" props) eqn:Ho; [|done]. by eapply json_like_own.
Qed.

Lemma flatten_json_like inputs cands :
  Forall (Forall (λ d, json_like d = true)) inputs →
  flatten inputs = Ok cands → Forall (λ c, json_like c = true) cands.
Proof.
  intros Hj Hf.
  pose proof (flatten_Ok_nonnullish _ _ Hf) as Hn.
  rewrite flatten_ok in Hf by done. injection Hf as <-.
  apply Forall_concat, Forall_forall. intros cs (docs & -> & Hin)%list_elem_of_fmap.
  apply Forall_concat, Forall_forall. intros cs (d & -> & Hd)%list_elem_of_fmap.
  apply contribution_json_like.
  rewrite Forall_forall in Hj. specialize (Hj _ Hin).
  rewrite Forall_forall in Hj. by apply Hj.
Qed.

(** ** The stages in sequence *)

Lemma convert_unfold cfg inputs w :
  convert cfg inputs w =
    match flatten inputs with
    | Throw e => (Throw e, w)
    | Ok cands =>
        match filterM keep cands w with
        | (Throw e, w1) => (Throw e, w1)
        | (Ok kept, w1) =>
            match mapR cleanKesItem kept with
            | Throw e => (Throw e, w1)
            | Ok kess => (mapR (transform cfg) kess, w1)
            end
        end
    end.
Proof.
  unfold convert, bind, lift. destruct (flatten inputs); [|done].
  destruct (filterM keep a w) as [[kept|e] w1]; [|done].
  by destruct (mapR cleanKesItem kept).
Qed.

(** The candidates are all fit for the filter and the cleaning: the run
    reaches the transformation. *)
Lemma convert_with_metadata cfg inputs cands w :
  flatten inputs = Ok cands →
  Forall (λ c, json_like c = true) cands →
  Forall (λ c, has_metadata c = true) cands →
  convert cfg inputs w
  = (mapR (transform cfg) (List.map cleaned (List.filter eligible cands)),
     printed_all cands w).
Proof.
  intros Hf Hj Hm. rewrite convert_unfold, Hf.
  rewrite filterM_keep_ok by (eapply Forall_impl; [done|]; auto).
  rewrite (mapR_ok _ cleaned); [done|].
  apply Forall_forall. intros c [Hin He]%list_elem_of_In%filter_In.
  apply list_elem_of_In in Hin. rewrite Forall_forall in Hj, Hm.
  apply cleanKesItem_ok; auto.
Qed.

(** One candidate on which [item.metadata] is missing: the run ends in
    a TypeError, in the filter or in the cleaning, and only the console
    has changed. *)
Lemma convert_without_metadata cfg inputs cands w :
  flatten inputs = Ok cands →
  Forall (λ c, json_like c = true) cands →
  Exists (λ c, has_metadata c = false) cands →
  ∃ w', convert cfg inputs w = (Throw TypeError, w')
        ∧ dirs w' = dirs w ∧ files w' = files w.
Proof.
  intros Hf Hj Hex. rewrite convert_unfold, Hf.
  destruct (decide (Exists (λ c, eligible c = false ∧ has_metadata c = false) cands))
    as [Hbad|Hgood].
  - destruct (filterM_keep_throws cands w Hbad) as (w' & -> & ? & ?). eauto.
  - apply not_Exists_Forall in Hgood; [|intros c; apply _].
    rewrite filterM_keep_ok.
    2:{ eapply Forall_impl; [done|]. intros c Hc He. simpl in Hc.
        destruct (has_metadata c); [done|]. by destruct Hc. }
    apply Exists_exists in Hex as (c & Hin & Hm).
    rewrite Forall_forall in Hgood. specialize (Hgood c Hin). simpl in Hgood.
    assert (eligible c = true) as He by (destruct (eligible c); [done|by destruct Hgood]).
    assert (c ∈ List.filter eligible cands) as Hin'
      by by apply list_elem_of_In, filter_In; split; [apply list_elem_of_In|].
    rewrite Forall_forall in Hj.
    destruct (mapR_elem_throws cleanKesItem _ c TypeError Hin') as [e Hthrow];
      [by apply cleanKesItem_no_metadata; auto|].
    rewrite Hthrow. exists (printed_all cands w).
    split; [|apply printed_all_fs].
    apply mapR_throws in Hthrow as (x & [Hx Hxe]%list_elem_of_In%filter_In & Hxt).
    apply list_elem_of_In in Hx.
    destruct (has_metadata x) eqn:Hxm.
    + rewrite cleanKesItem_ok in Hxt by auto. done.
    + rewrite cleanKesItem_no_metadata in Hxt by auto. by simplify_eq.
Qed.

Lemma keep_fs item w r w' :
  keep item w = (r, w') → dirs w' = dirs w ∧ files w' = files w.
Proof.
  destruct (eligible item) eqn:He.
  - rewrite keep_eligible by done. by intros [= _ <-].
  - destruct (has_metadata item) eqn:Hm.
    + rewrite keep_ineligible by done. intros [= _ <-]. apply printed_fs.
    + rewrite keep_no_metadata by done. by intros [= _ <-].
Qed.

Lemma filterM_keep_fs cands w r w' :
  filterM keep cands w = (r, w') → dirs w' = dirs w ∧ files w' = files w.
Proof.
  revert w r w'. induction cands as [|c cands IH]; intros w r w'; simpl.
  - by intros [= _ <-].
  - unfold bind at 1. destruct (keep c w) as [[b|e] w1] eqn:Hk.
    + apply keep_fs in Hk as [<- <-]. unfold bind.
      destruct (filterM keep cands w1) as [[ys|e] w2] eqn:Hf.
      * apply IH in Hf. unfold ret. by intros [= _ <-].
      * apply IH in Hf. by intros [= _ <-].
    + apply keep_fs in Hk. by intros [= _ <-].
Qed.

Lemma convert_fs cfg inputs w r w' :
  convert cfg inputs w = (r, w') → dirs w' = dirs w ∧ files w' = files w.
Proof.
  rewrite convert_unfold. destruct (flatten inputs) as [cands|e]; [|by intros [= _ <-]].
  destruct (filterM keep cands w) as [[kept|e] w1] eqn:Hf; apply filterM_keep_fs in Hf.
  - destruct (mapR cleanKesItem kept); by intros [= _ <-].
  - by intros [= _ <-].
Qed.

(** A run that reaches the transformation, on inputs as the parser
    produces them: every candidate had metadata, and the targets are the
    transforms of the cleaned eligible candidates, in order. *)
Lemma convert_Ok_inv cfg inputs w esoSecrets w1 :
  Forall (Forall (λ d, json_like d = true)) inputs →
  convert cfg inputs w = (Ok esoSecrets, w1) →
  ∃ cands,
    flatten inputs = Ok cands
    ∧ Forall (λ c, has_metadata c = true) cands
    ∧ w1 = printed_all cands w
    ∧ mapR (transform cfg) (List.map cleaned (List.filter eligible cands)) = Ok esoSecrets.
Proof.
  intros Hj Hc. destruct (flatten inputs) as [cands|e] eqn:Hf.
  2:{ rewrite convert_unfold, Hf in Hc. done. }
  pose proof (flatten_json_like _ _ Hj Hf) as Hjc.
  exists cands. split; [done|].
  destruct (decide (Exists (λ c, has_metadata c = false) cands)) as [Hex|Hall].
  - destruct (convert_without_metadata cfg _ _ w Hf Hjc Hex) as (w' & Hw' & _).
    congruence.
  - apply not_Exists_Forall in Hall; [|intros c; apply _].
    assert (Forall (λ c, has_metadata c = true) cands) as Hm.
    { eapply Forall_impl; [done|]. intros c Hc'. unfold compose in Hc'.
      by destruct (has_metadata c). }
    rewrite (convert_with_metadata cfg _ _ w Hf Hjc Hm) in Hc.
    by simplify_eq.
Qed.

(** ** The write loop and the end of the process *)

Section ProcessProperties.
Context `{Host}.

Lemma write_one_unfold cfg esoSecret w :
  write_one cfg esoSecret w =
    match output_of cfg esoSecret with
    | Ok o => (Ok tt, written o w)
    | Throw e => (Throw e, w)
    end.
Proof.
  unfold write_one, output_of, bind, lift.
  destruct (get esoSecret "metadata") as [md|] eqn:Hmd; simpl; [|done].
  destruct (get md "namespace") as [ns|] eqn:Hns; simpl; [|done].
  destruct (yaml_dump esoSecret) as [output|]; simpl; [|done].
  pose proof (get_Ok_nonnullish _ _ _ Hns) as Hn.
  rewrite (get_nonnullish md "name") by done.
  rewrite (get_nonnullish md "namespace") in Hns by done. injection Hns as <-.
  unfold namespace_of, js_or, file_name_of.
  by destruct (path_resolve _).
Qed.

Lemma forEach_write_ok cfg esoSecrets outs w :
  mapR (output_of cfg) esoSecrets = Ok outs →
  forEach (write_one cfg) esoSecrets w = (Ok tt, foldl (λ w o, written o w) w outs).
Proof.
  revert outs w. induction esoSecrets as [|e es IH]; intros outs w; simpl.
  - by intros [= <-].
  - destruct (output_of cfg e) as [o|] eqn:Ho; simpl; [|done].
    destruct (mapR (output_of cfg) es) as [os|] eqn:Hos; simpl; [|done].
    intros [= <-]. unfold bind. rewrite write_one_unfold, Ho. simpl. by apply IH.
Qed.

Lemma forEach_write_inv cfg esoSecrets w w' :
  forEach (write_one cfg) esoSecrets w = (Ok tt, w') →
  ∃ outs, mapR (output_of cfg) esoSecrets = Ok outs
          ∧ w' = foldl (λ w o, written o w) w outs.
Proof.
  revert w. induction esoSecrets as [|e es IH]; intros w; simpl.
  - intros [= <-]. by exists [].
  - unfold bind. rewrite write_one_unfold.
    destruct (output_of cfg e) as [o|] eqn:Ho; [|done].
    intros (outs & -> & ->)%IH. by exists (o :: outs).
Qed.

Lemma files_foldl_written_other (outs : list (string * string)) w p :
  p ∉ outs.*1 →
  files (foldl (λ w o, written o w) w outs) !! p = files w !! p.
Proof.
  revert w. induction outs as [|o outs IH]; intros w Hp; simpl; [done|].
  rewrite fmap_cons in Hp. apply not_elem_of_cons in Hp as [Hne Hp].
  rewrite IH by done. simpl. by rewrite lookup_insert_ne.
Qed.

(** The last write to a path decides what the file holds. *)
Lemma files_foldl_written_last (before after : list (string * string)) w p text :
  p ∉ after.*1 →
  files (foldl (λ w o, written o w) w (before ++ (p, text) :: after)) !! p = Some text.
Proof.
  intros Hp. rewrite foldl_app. simpl.
  rewrite files_foldl_written_other by done. simpl. by rewrite lookup_insert_eq.
Qed.
End ProcessProperties.

(** ** From a candidate to its target resource *)

Lemma field_of_cleaned_metadata item :
  has_metadata item = true →
  (∃ ps, item = VObj ps) →
  field_of (cleaned item) "metadata" = strip_metadata (field_of item "metadata").
Proof.
  intros [_ Hm%negb_true_iff]%andb_true_iff [ps ->]. unfold cleaned.
  rewrite !field_of_obj in *. rewrite own_remove_ne by done.
  rewrite own_replace_eq. by destruct (own "metadata" ps).
Qed.

Lemma field_of_cleaned_other item k :
  k ≠ "metadata" → k ≠ "status" → field_of (cleaned item) k = field_of item k.
Proof.
  intros H1 H2. destruct item; try done. unfold cleaned.
  by rewrite !field_of_obj, own_remove_ne, own_replace_ne.
Qed.

Lemma has_prop_cleaned_status item : has_prop (cleaned item) "status" = false.
Proof.
  destruct item; try done. simpl. rewrite own_remove_eq.
  apply bool_decide_eq_false. by intros [? ?].
Qed.

Lemma transform_metadata cfg kes eso :
  truthy (field_of kes "spec") = true →
  transform cfg kes = Ok eso → field_of eso "metadata" = field_of kes "metadata".
Proof.
  intros Hs. rewrite transform_unfold by done.
  destruct (optional_part "data" _ _); simpl; [|done].
  destruct (optional_part "dataFrom" _ _); simpl; [|done].
  by intros [= <-].
Qed.

Lemma eligible_spec item : eligible item = true → truthy (field_of item "spec") = true.
Proof. unfold eligible. by intros [_ ?]%andb_true_iff. Qed.



Section ProcessTheorems.
Context `{Host}.

Lemma main_exit_inv cfg inputs w code w' :
  main cfg inputs w = (Exited code, w') →
  ∃ esoSecrets w1,
    convert cfg inputs w = (Ok esoSecrets, w1)
    ∧ ((esoSecrets = [] ∧ code = 1%Z
        ∧ w' = {| console := console w1 ++ [no_secrets_warning];
                  dirs := dirs w1; files := files w1 |})
       ∨ (esoSecrets ≠ [] ∧ code = 0%Z
          ∧ forEach (write_one cfg) esoSecrets w1 = (Ok tt, w'))).
Proof.
  unfold main. destruct (convert cfg inputs w) as [[esos|e] w1]; [|done].
  intros Hm. exists esos, w1. split; [done|]. destruct esos as [|eso esos].
  - simpl in Hm. injection Hm as <- <-. by left.
  - simpl length in Hm. cbn [Nat.eqb] in Hm.
    destruct (forEach _ _ _) as [[[]|e] w2] eqn:Hw; [|done].
    injection Hm as <- <-. by right.
Qed.

(** C7. When the filter leaves no candidate, the process prints the
    warning and exits with status 1, and the file system is as it was;
    when the list of targets is not empty and every write of the loop
    completes, it ends with status 0. *)
Theorem exit_status (cfg : flags) (inputs : list (list value)) (w : world) :
  (∀ cands w1,
     flatten inputs = Ok cands →
     filterM keep cands w = (Ok [], w1) →
     main cfg inputs w
     = (Exited 1, {| console := console w1 ++ [no_secrets_warning];
                     dirs := dirs w; files := files w |}))
  ∧ (∀ esoSecrets w1 w2,
       convert cfg inputs w = (Ok esoSecrets, w1) →
       esoSecrets ≠ [] →
       forEach (write_one cfg) esoSecrets w1 = (Ok tt, w2) →
       main cfg inputs w = (Exited 0, w2)).
Proof.
  split.
  - intros cands w1 Hf Hk. unfold main. rewrite convert_unfold, Hf, Hk. simpl.
    apply filterM_keep_fs in Hk as [-> ->]. done.
  - intros esos w1 w2 Hc Hne Hw. unfold main. rewrite Hc.
    destruct esos as [|eso esos]; [done|]. simpl length. cbn [Nat.eqb].
    by rewrite Hw.
Qed.

(** C8. A target resource whose serialization and path resolution
    succeed is written to the path resolved from the output directory,
    the namespace ([metadata.namespace] when present, else [default])
    and [<metadata.name>.yaml]; the directory of that path exists
    afterwards; the file holds the new text whatever it held before,
    and the console gets the [Writing to] line only.  In a whole loop
    the last resource written to a path decides the content of the
    file. *)
Theorem write_one_layout (cfg : flags) (esoSecret md : value) (text p : string) (w : world) :
  get esoSecret "metadata" = Ok md →
  nullish md = false →
  yaml_dump esoSecret = Ok text →
  path_resolve [VStr (out cfg);
                (if truthy (field_of md "namespace")
                 then field_of md "namespace" else VStr "default");
                VStr (js_to_string (field_of md "name") ++ ".yaml")%string] = Ok p →
  (∃ w', write_one cfg esoSecret w = (Ok tt, w')
         ∧ console w' = (console w ++ [ConsoleLog [VStr "Writing to"; VStr p]])%list
         ∧ path_dirname p ∈ dirs w'
         ∧ files w' = <[p := text]> (files w)
         ∧ files w' !! p = Some text)
  ∧ (∀ other md' text',
       get other "metadata" = Ok md' →
       nullish md' = false →
       field_of md' "namespace" = field_of md "namespace" →
       field_of md' "name" = field_of md "name" →
       yaml_dump other = Ok text' →
       output_of cfg other = Ok (p, text'))
  ∧ (∀ before after w0 w1,
       forEach (write_one cfg) (before ++ esoSecret :: after) w0 = (Ok tt, w1) →
       Forall (λ later, ∀ o, output_of cfg later = Ok o → o.1 ≠ p) after →
       files w1 !! p = Some text).
Proof.
  intros Hmd Hn Hdump Hp.
  assert (output_of cfg esoSecret = Ok (p, text)) as Ho.
  { unfold output_of, namespace_of, file_name_of. rewrite Hmd. simpl.
    rewrite get_nonnullish by done. simpl. rewrite Hdump. simpl. by rewrite Hp. }
  split; [|split].
  - rewrite write_one_unfold, Ho. eexists. split; [done|]. simpl.
    repeat split; [set_solver|by rewrite lookup_insert_eq].
  - intros other md' text' Hmd' Hn' Hns Hname Hdump'.
    unfold output_of, namespace_of, file_name_of. rewrite Hmd'. simpl.
    rewrite get_nonnullish by done. simpl. rewrite Hdump'. simpl.
    by rewrite Hns, Hname, Hp.
  - intros before after w0 w1 (outs & Houts & ->)%forEach_write_inv Hafter.
    apply mapR_Forall2 in Houts.
    apply Forall2_app_inv_l in Houts as (obefore & orest & Hb & Hr & ->).
    apply Forall2_cons_inv_l in Hr as (o & oafter & Ho' & Ha & ->).
    rewrite Ho in Ho'. injection Ho' as <-.
    apply files_foldl_written_last.
    intros (o & Hp' & Hin)%list_elem_of_fmap.
    apply list_elem_of_lookup in Hin as [i Hi].
    destruct (Forall2_lookup_r _ _ _ _ _ Ha Hi) as (later & Hl & Hlo).
    rewrite Forall_forall in Hafter.
    eapply Hafter; [by eapply list_elem_of_lookup_2|done|done].
Qed.
Lemma forEach_write_prefix cfg esoSecrets w r w' :
  forEach (write_one cfg) esoSecrets w = (r, w') →
  ∃ emitted outs,
    emitted `prefix_of` esoSecrets
    ∧ mapR (output_of cfg) emitted = Ok outs
    ∧ w' = foldl (λ w o, written o w) w outs.
Proof.
  revert w. induction esoSecrets as [|e es IH]; intros w; cbn [forEach].
  - intros [= _ <-]. exists [], []. by split; [apply prefix_nil|].
  - unfold bind. rewrite write_one_unfold.
    destruct (output_of cfg e) as [o|x] eqn:Ho.
    + intros (emitted & outs & Hp & Hm & ->)%IH.
      exists (e :: emitted), (o :: outs). split; [by apply prefix_cons|].
      split; [|done]. cbn [mapR]. by rewrite Ho, Hm.
    + intros [= _ <-]. exists [], []. by split; [apply prefix_nil|].
Qed.




(** C10 (amended). The skip of an ineligible candidate needs
    [item.metadata] to be there, as a map or as anything else that is
    not [undefined] or [null]:
    a null document makes the flattening throw; a candidate that is
    null or has no metadata makes the filter (when it is ineligible) or
    the cleaning (when it is eligible) throw; in both cases the run
    ends with an uncaught TypeError and nothing is written.  When every
    candidate carries metadata, the filter and the cleaning complete,
    one diagnostic being printed per ineligible candidate. *)
Theorem skip_needs_metadata (cfg : flags) (inputs : list (list value)) (w : world) :
  (Exists (Exists (λ d, nullish d = true)) inputs →
   main cfg inputs w = (Uncaught TypeError, w))
  ∧ (∀ cands,
       Forall (Forall (λ d, json_like d = true)) inputs →
       flatten inputs = Ok cands →
       Exists (λ c, has_metadata c = false) cands →
       ∃ w', main cfg inputs w = (Uncaught TypeError, w')
             ∧ dirs w' = dirs w ∧ files w' = files w)
  ∧ (∀ cands,
       Forall (Forall (λ d, json_like d = true)) inputs →
       flatten inputs = Ok cands →
       Forall (λ c, has_metadata c = true) cands →
       filterM keep cands w = (Ok (List.filter eligible cands), printed_all cands w)
       ∧ mapR cleanKesItem (List.filter eligible cands)
         = Ok (List.map cleaned (List.filter eligible cands))).
Proof.
  split; [|split].
  - intros Hex. unfold main. by rewrite convert_unfold, flatten_throws.
  - intros cands Hj Hf Hex.
    pose proof (flatten_json_like _ _ Hj Hf) as Hjc.
    destruct (convert_without_metadata cfg _ _ w Hf Hjc Hex) as (w' & Hc & ? & ?).
    exists w'. unfold main. by rewrite Hc.
  - intros cands Hj Hf Hm.
    pose proof (flatten_json_like _ _ Hj Hf) as Hjc. split.
    + apply filterM_keep_ok. eapply Forall_impl; [exact Hm|]. auto.
    + apply mapR_ok, Forall_forall. intros c [Hin He]%list_elem_of_In%filter_In.
      apply list_elem_of_In in Hin. rewrite Forall_forall in Hjc, Hm.
      apply cleanKesItem_ok; auto.
Qed.
End ProcessTheorems.

(** ** [dataFrom] *)

Lemma own_spec_head_dataFrom cfg kspec : own "dataFrom" (spec_head cfg kspec) = None.
Proof. unfold spec_head. destruct (truthy _); simpl; by eqb_lit. Qed.

(** C1 (amended). For an eligible resource with metadata whose
    [spec.dataFrom] is a sequence, cleaning and transformation succeed
    and the target [spec.dataFrom] holds, for each element [e] in
    order, exactly [{key: e}], with no [version] and no [property]:
    a bare string [s] gives [{key: s}], and an element that is an
    object is not unpacked but becomes the [key] as a whole. *)
Theorem dataFrom_wrapped (cfg : flags) (item : value) (l : list value) :
  eligible item = true →
  json_like item = true →
  has_metadata item = true →
  field_of (field_of item "spec") "dataFrom" = VArr l →
  data_convertible (field_of item "spec") = true →
  ∃ kes eso,
    cleanKesItem item = Ok kes
    ∧ transform cfg kes = Ok eso
    ∧ field_of (field_of eso "spec") "dataFrom"
      = VArr (List.map (λ e, VObj [("key", e)]) l).
Proof.
  intros He Hj Hm Hdf Hc.
  assert (field_of (cleaned item) "spec" = field_of item "spec") as Hspec
    by by apply field_of_cleaned_other.
  pose proof (eligible_spec _ He) as Hs.
  destruct (transform_total cfg (cleaned item)) as (dpart & fpart & Hd & Hf & Ht);
    [by rewrite Hspec..|].
  exists (cleaned item). eexists. split; [by apply cleanKesItem_ok|].
  split; [exact Ht|].
  rewrite Hspec in *. rewrite Hdf in Hf. unfold optional_part in Hf.
  rewrite convertDataFrom_ok in Hf. cbn [truthy result_bind] in Hf. injection Hf as <-.
  rewrite (field_of_obj "spec"). cbn [own]. eqb_lit. cbn [default from_option id].
  rewrite field_of_obj, !own_app, own_spec_head_dataFrom.
  rewrite (optional_part_keys _ _ _ _ Hd) by done. cbn [own]. by eqb_lit.
Qed.

(** C1, as stated, fails on an element that is an object: the target
    holds a reference whose [key] is the whole object, not the
    reference [createRemoteRef] builds from the object's own fields. *)
Lemma dataFrom_object_not_unpacked :
  let element := VObj [("key", VStr "app/config"); ("version", VStr "3")] in
  let kes := VObj [("apiVersion", VStr "kubernetes-client.io/v1");
                   ("kind", VStr "ExternalSecret");
                   ("metadata", VObj [("name", VStr "app")]);
                   ("spec", VObj [("backendType", VStr "vault");
                                  ("dataFrom", VArr [element])])] in
  eligible kes = true
  ∧ createRemoteRef element
    = Ok (VObj [("key", VStr "app/config"); ("version", VStr "3")])
  ∧ (kes' <- cleanKesItem kes ;; eso <- transform default_flags kes' ;;
     espec <- get eso "spec" ;; get espec "dataFrom")
    = Ok (VArr [VObj [("key", element)]])
  ∧ (kes' <- cleanKesItem kes ;; eso <- transform default_flags kes' ;;
     espec <- get eso "spec" ;; get espec "dataFrom")
    ≠ (r <- createRemoteRef element ;; Ok (VArr [r])).
Proof. by vm_compute. Qed.

(** ** Runs on examples *)

(** The end-to-end example of the specification. *)
Example db_creds_run :
  ∃ w, @main sample_host default_flags [[db_creds]] empty_world = (Exited 0, w)
       ∧ files w = {[ "./converted/prod/db-creds.yaml" := flow_dump db_creds_eso ]}
       ∧ convert default_flags [[db_creds]] empty_world = (Ok [db_creds_eso], empty_world).
Proof. eexists. by vm_compute. Qed.


(** C10, as stated, fails on a candidate whose [metadata] is there but
    is not a map: with [metadata: x], a string, [item.metadata.name] is
    [undefined] and nothing throws.  The ineligible candidate is
    skipped with a diagnostic, the eligible one is cleaned, converted
    and written, and the run ends normally. *)
Lemma scalar_metadata_does_not_abort :
  (∀ ps, field_of scalar_metadata_pod "metadata" ≠ VObj ps)
  ∧ (∀ ps, field_of scalar_metadata "metadata" ≠ VObj ps)
  ∧ eligible scalar_metadata_pod = false
  ∧ eligible scalar_metadata = true
  ∧ convert default_flags [[scalar_metadata_pod; scalar_metadata]] empty_world
    = (Ok [scalar_metadata_eso],
       {| console := [ConsoleError [VStr "Expected"; VUndef; VStr "to have field:";
                                    VStr "apiVersion"; VStr "with value:";
                                    VStr "kubernetes-client.io/v1"]];
          dirs := ∅; files := ∅ |})
  ∧ ∃ w,
      @main sample_host default_flags [[scalar_metadata_pod; scalar_metadata]] empty_world
      = (Exited 0, w)
      ∧ files w = {[ "./converted/default/undefined.yaml" := flow_dump scalar_metadata_eso ]}.
Proof.
  split; [done|]. split; [done|]. split; [done|]. split; [done|].
  split; [by vm_compute|]. eexists. by vm_compute.
Qed.

(** C4: the run on a Kustomization file followed by a valid legacy
    resource.  The first candidate fails the [apiVersion] check; the
    diagnostic reads [item.metadata.name], [item.metadata] is
    [undefined], and the run ends there with a TypeError: nothing is
    printed, the second candidate is never looked at, and nothing is
    written. *)
Theorem diagnostic_aborts_without_metadata `{Host} (cfg : flags) (w : world) :
  eligible kustomization = false
  ∧ eligible db_creds = true
  ∧ main cfg [[kustomization; db_creds]] w = (Uncaught TypeError, w).
Proof.
  split; [done|]. split; [done|]. unfold main. rewrite convert_unfold.
  change (flatten [[kustomization; db_creds]]) with (Ok [kustomization; db_creds]).
  cbn [filterM]. unfold bind at 1. by rewrite keep_no_metadata.
Qed.

(** * Cleaning in the object store *)

(** ** Trees laid out in the store *)

Lemma chain_range {A} (R : A → nat → nat → ref → Prop) ts :
  Forall (λ t, ∀ lo hi e, R t lo hi e → lo ≤ hi) ts →
  ∀ lo hi es, chain R ts lo hi es → lo ≤ hi.
Proof.
  induction 1 as [|t ts Ht _ IH]; intros lo hi [|e es]; simpl; try done.
  intros (mid & Hr & Hc). apply Ht in Hr. apply IH in Hc. lia.
Qed.

Lemma chain_transfer {A} (R R' : A → nat → nat → ref → Prop) (g g' : store) ts :
  Forall (λ t, ∀ lo hi e, R t lo hi e → lo ≤ hi) ts →
  Forall (λ t, ∀ lo hi lo' hi' e,
            R t lo hi e → lo' ≤ lo → hi ≤ hi' → agree g g' lo hi → R' t lo' hi' e) ts →
  ∀ lo hi lo' hi' es,
    chain R ts lo hi es → lo' ≤ lo → hi ≤ hi' → agree g g' lo hi →
    chain R' ts lo' hi' es.
Proof.
  intros Hrange Hall. induction Hall as [|t ts Ht Hall IH];
    intros lo hi lo' hi' [|e es]; simpl; try done; [lia|].
  apply Forall_cons in Hrange as [Hrt Hrts].
  intros (mid & Hr & Hc) Hlo Hhi Hag.
  pose proof (Hrt _ _ _ Hr). pose proof (chain_range R ts Hrts _ _ _ Hc).
  exists mid. split.
  - eapply Ht; [done|lia|lia|]. intros l Hl. apply Hag. lia.
  - eapply (IH Hrts mid hi); [done|lia|lia|]. intros l Hl. apply Hag. lia.
Qed.

Lemma rep_range g t : ∀ lo hi r, rep g t lo hi r → lo ≤ hi.
Proof.
  induction t as [| | | | |ts IH|ps IH] using value_ind; intros lo hi r; simpl;
    try (by intros [_ ?]).
  - intros (l & es & _ & _ & Hl & Hc).
    pose proof (chain_range (rep g) ts IH _ _ _ Hc). lia.
  - intros (l & eps & _ & _ & Hl & _ & Hc).
    pose proof (chain_range (λ p, rep g p.2) ps IH _ _ _ Hc). lia.
Qed.

Lemma rep_transfer g g' t :
  ∀ lo hi lo' hi' r,
    rep g t lo hi r → lo' ≤ lo → hi ≤ hi' → agree g g' lo hi → rep g' t lo' hi' r.
Proof.
  induction t as [| | | | |ts IH|ps IH] using value_ind; intros lo hi lo' hi' r; simpl;
    try (intros [-> ?] ???; split; [done|lia]).
  - intros (l & es & -> & Hl & Hlt & Hc) Hlo Hhi Hag.
    assert (Forall (λ t, ∀ lo hi e, rep g t lo hi e → lo ≤ hi) ts) as Hrange
      by (apply Forall_forall; intros t _; apply rep_range).
    pose proof (chain_range _ _ Hrange _ _ _ Hc).
    exists l, es. split; [done|]. split; [by rewrite Hag by lia|]. split; [lia|].
    eapply (chain_transfer (rep g) (rep g') g g'); [done|exact IH|done|lia|lia|].
    intros l' Hl'. apply Hag. lia.
  - intros (l & eps & -> & Hl & Hlt & Hk & Hc) Hlo Hhi Hag.
    assert (Forall (λ p : string * value, ∀ lo hi e, rep g p.2 lo hi e → lo ≤ hi) ps)
      as Hrange by (apply Forall_forall; intros t _; apply rep_range).
    pose proof (chain_range _ _ Hrange _ _ _ Hc).
    exists l, eps. split; [done|]. split; [by rewrite Hag by lia|]. split; [lia|].
    split; [done|].
    eapply (chain_transfer (λ p, rep g p.2) (λ p, rep g' p.2) g g');
      [done|exact IH|done|lia|lia|].
    intros l' Hl'. apply Hag. lia.
Qed.

Lemma rep_ranges g :
  ∀ ts : list value, Forall (λ t, ∀ lo hi e, rep g t lo hi e → lo ≤ hi) ts.
Proof. intros ts. apply Forall_forall. intros t _. apply rep_range. Qed.

Lemma rep_ranges_props g :
  ∀ ps : list (string * value),
    Forall (λ p, ∀ lo hi e, rep g p.2 lo hi e → lo ≤ hi) ps.
Proof. intros ps. apply Forall_forall. intros t _. apply rep_range. Qed.

(** A laid-out tree is what reading the store gives. *)
Lemma rep_tree g t :
  ∀ lo hi r fuel, rep g t lo hi r → hi ≤ fuel → tree fuel g r = Some t.
Proof.
  induction t as [| | | | |ts IH|ps IH] using value_ind; intros lo hi r fuel; simpl;
    try (intros [-> _] _; by destruct fuel).
  - intros (l & es & -> & Hl & Hlt & Hc) Hn.
    destruct fuel as [|fuel]; [lia|]. simpl. rewrite Hl.
    assert (mapM (tree fuel g) es = Some ts) as ->; [|done].
    assert (l ≤ fuel) as Hln by lia. clear Hl Hlt Hn. revert lo es Hc.
    induction IH as [|t ts Ht _ IHts]; intros lo [|e es]; simpl; try done.
    intros (mid & Hr & Hc).
    pose proof (chain_range _ _ (rep_ranges g ts) _ _ _ Hc).
    rewrite (Ht _ _ _ fuel Hr) by lia. simpl. by rewrite (IHts _ _ Hc).
  - intros (l & eps & -> & Hl & Hlt & Hk & Hc) Hn.
    destruct fuel as [|fuel]; [lia|]. simpl. rewrite Hl.
    assert (mapM (λ p, (λ t, (p.1, t)) <$> tree fuel g p.2) eps = Some ps) as ->; [|done].
    assert (l ≤ fuel) as Hln by lia. clear Hl Hlt Hn. revert lo eps Hk Hc.
    induction IH as [|[k t] ps Ht _ IHps]; intros lo [|[k' e] eps]; simpl; try done.
    intros [= -> Hk] (mid & Hr & Hc).
    pose proof (chain_range _ _ (rep_ranges_props g ps) _ _ _ Hc).
    rewrite (Ht _ _ _ fuel Hr) by lia. simpl. by rewrite (IHps _ _ Hk Hc).
Qed.

Lemma tree_mono n :
  ∀ h ext r t m, tree n h r = Some t → n ≤ m → tree m (h ++ ext) r = Some t.
Proof.
  induction n as [|n IH]; intros h ext r t m Ht Hm; destruct r; simpl in *; try done;
    try (by destruct m).
  destruct m as [|m]; [lia|]. simpl.
  destruct (h !! l) as [c|] eqn:Hl; [|done].
  rewrite (lookup_app_l_Some _ _ _ _ Hl).
  destruct c as [es|eps].
  - destruct (mapM (tree n h) es) as [ts|] eqn:Hes; [|done].
    assert (mapM (tree m (h ++ ext)) es = Some ts) as ->; [|done].
    apply mapM_Some. apply mapM_Some in Hes.
    eapply Forall2_impl; [done|]. intros e t' He. apply IH; [done|lia].
  - destruct (mapM _ eps) as [ps|] eqn:Hes; [|done].
    assert (mapM (λ p, (λ t, (p.1, t)) <$> tree m (h ++ ext) p.2) eps = Some ps) as ->;
      [|done].
    apply mapM_Some. apply mapM_Some in Hes.
    eapply Forall2_impl; [done|]. intros [k e] p. simpl.
    destruct (tree n h e) as [t'|] eqn:He; [|done]. simpl.
    by rewrite (IH _ ext _ _ m He) by lia.
Qed.

(** ** Allocation of the copy *)

Lemma store_parse_arr ts h :
  store_parse (VArr ts) h
  = ((parse_elems ts h).1 ++ [CArr (parse_elems ts h).2], RPtr (length (parse_elems ts h).1)).
Proof.
  change (store_parse (VArr ts) h)
    with (let '(h1, es) := parse_elems ts h in (h1 ++ [CArr es], RPtr (length h1))).
  by destruct (parse_elems ts h).
Qed.

Lemma store_parse_obj ps h :
  store_parse (VObj ps) h
  = ((parse_props ps h).1 ++ [CObj (parse_props ps h).2], RPtr (length (parse_props ps h).1)).
Proof.
  change (store_parse (VObj ps) h)
    with (let '(h1, eps) := parse_props ps h in (h1 ++ [CObj eps], RPtr (length h1))).
  by destruct (parse_props ps h).
Qed.

Lemma agree_app g ext lo : agree g (g ++ ext) lo (length g).
Proof. intros l Hl. apply lookup_app_l. lia. Qed.

Lemma parse_elems_rep ts :
  Forall (λ t, ∀ h, parsed_at t h) ts →
  ∀ h, (∃ ext, (parse_elems ts h).1 = h ++ ext)
       ∧ chain (rep (parse_elems ts h).1) ts (length h) (length (parse_elems ts h).1)
           (parse_elems ts h).2.
Proof.
  induction 1 as [|t ts Ht _ IH]; intros h; simpl.
  - split; [exists []; by rewrite app_nil_r|done].
  - destruct (Ht h) as [[ext1 He1] Hr1].
    destruct (store_parse t h) as [h1 e]. simpl in *.
    destruct (IH h1) as [[ext2 He2] Hc2].
    destruct (parse_elems ts h1) as [h2 es]. simpl in *. subst.
    split; [exists (ext1 ++ ext2); by rewrite app_assoc|].
    exists (length (h ++ ext1)). split; [|done].
    eapply rep_transfer; [done|lia|lia|apply agree_app].
Qed.

Lemma parse_props_rep ps :
  Forall (λ p, ∀ h, parsed_at p.2 h) ps →
  ∀ h, (∃ ext, (parse_props ps h).1 = h ++ ext)
       ∧ (parse_props ps h).2.*1 = ps.*1
       ∧ chain (λ p, rep (parse_props ps h).1 p.2) ps (length h)
           (length (parse_props ps h).1) ((parse_props ps h).2.*2).
Proof.
  induction 1 as [|[k t] ps Ht _ IH]; intros h; simpl.
  - split; [exists []; by rewrite app_nil_r|done].
  - destruct (Ht h) as [[ext1 He1] Hr1]. simpl in *.
    destruct (store_parse t h) as [h1 e]. simpl in *.
    destruct (IH h1) as ([ext2 He2] & Hk2 & Hc2).
    destruct (parse_props ps h1) as [h2 eps]. simpl in *. subst.
    split; [exists (ext1 ++ ext2); by rewrite app_assoc|].
    split; [by f_equal|].
    exists (length (h ++ ext1)). split; [|done].
    eapply rep_transfer; [done|lia|lia|apply agree_app].
Qed.

Lemma store_parse_rep t : ∀ h, parsed_at t h.
Proof.
  induction t as [| | | | |ts IH|ps IH] using value_ind; intros h;
    try (split; [exists []; by rewrite app_nil_r|done]).
  - unfold parsed_at. rewrite store_parse_arr. simpl.
    destruct (parse_elems_rep ts IH h) as [[ext He] Hc].
    destruct (parse_elems ts h) as [h1 es]. simpl in *. subst.
    split; [exists (ext ++ [CArr es]); by rewrite app_assoc|].
    exists (length (h ++ ext)), es. split; [done|].
    split; [by apply list_lookup_middle|]. split; [rewrite !length_app; simpl; lia|].
    eapply (chain_transfer (rep (h ++ ext)) _ (h ++ ext));
      [apply rep_ranges| |done|lia|lia|apply agree_app].
    apply Forall_forall. intros t _ ?????. apply rep_transfer.
  - unfold parsed_at. rewrite store_parse_obj. simpl.
    destruct (parse_props_rep ps IH h) as ([ext He] & Hk & Hc).
    destruct (parse_props ps h) as [h1 eps]. simpl in *. subst.
    split; [exists (ext ++ [CObj eps]); by rewrite app_assoc|].
    exists (length (h ++ ext)), eps. split; [done|].
    split; [by apply list_lookup_middle|]. split; [rewrite !length_app; simpl; lia|].
    split; [done|].
    eapply (chain_transfer (λ p, rep (h ++ ext) p.2) _ (h ++ ext));
      [apply rep_ranges_props| |done|lia|lia|apply agree_app].
    apply Forall_forall. intros t _ ?????. apply rep_transfer.
Qed.

(** ** Reads and deletes on a laid-out tree *)

Lemma frame_refl g lo hi : frame g g lo hi.
Proof. by split. Qed.

Lemma frame_widen g g' lo hi lo' hi' :
  frame g g' lo hi → lo' ≤ lo → hi ≤ hi' → frame g g' lo' hi'.
Proof. intros [Hl Hf] ??. split; [done|]. intros l Hn. apply Hf. lia. Qed.

Lemma rep_nullish g t lo hi r : rep g t lo hi r → ref_nullish r = nullish t.
Proof.
  destruct t; simpl; try (by intros [-> _]).
  - by intros (l & es & -> & _).
  - by intros (l & es & -> & _).
Qed.

(** The part of an object found under a key, its range, and what
    putting another tree in its place gives. *)
Lemma chain_own g k ps :
  ∀ lo hi (eps : list (string * ref)),
    eps.*1 = ps.*1 →
    chain (λ p, rep g p.2) ps lo hi (eps.*2) →
    match own k ps with
    | None => own k eps = None
    | Some c =>
        ∃ e a b,
          own k eps = Some e ∧ lo ≤ a ∧ b ≤ hi ∧ rep g c a b e
          ∧ ∀ g' c',
              frame g g' a b → rep g' c' a b e →
              chain (λ p, rep g' p.2) (replace k c' ps) lo hi (eps.*2)
    end.
Proof.
  induction ps as [|[k0 v] ps IH]; intros lo hi [|[k0' e0] eps]; simpl; try done.
  intros [= -> Hk] (mid & Hr & Hc).
  pose proof (rep_range _ _ _ _ _ Hr) as Hlm.
  pose proof (chain_range _ _ (rep_ranges_props g ps) _ _ _ Hc) as Hmh.
  destruct (String.eqb k0 k) eqn:E.
  - exists e0, lo, mid. repeat split; try done.
    intros g' c' [_ Hf] Hr'. simpl. exists mid. split; [done|].
    eapply (chain_transfer (λ p, rep g p.2) _ g g');
      [apply rep_ranges_props| |done|lia|lia|].
    + apply Forall_forall. intros t _ ?????. apply rep_transfer.
    + intros l Hl. apply Hf. lia.
  - specialize (IH mid hi eps Hk Hc). destruct (own k ps) as [c|]; [|done].
    destruct IH as (e & a & b & He & Ha & Hb & Hrc & Hput).
    exists e, a, b. repeat split; try done; [lia|].
    intros g' c' Hfr Hr'. simpl. exists mid. split; [|by apply Hput].
    eapply rep_transfer; [done|lia|lia|]. intros l Hl. apply Hfr. lia.
Qed.

Lemma store_get_rep g t lo hi r k :
  rep g t lo hi r →
  match get t k with
  | Ok c => ∃ e a b, store_get g r k = Ok e ∧ rep g c a b e
  | Throw x => store_get g r k = Throw x
  end.
Proof.
  destruct t; simpl; try (by intros [-> _]);
    try (intros [-> _]; by exists RUndef, 0, 0).
  - intros (l & es & -> & Hl & _). exists RUndef, 0, 0. simpl. by rewrite Hl.
  - intros (l & eps & -> & Hl & _ & Hk & Hc). simpl. rewrite Hl.
    pose proof (chain_own g k props _ _ _ Hk Hc) as Ho.
    destruct (own k props) as [c|].
    + destruct Ho as (e & a & b & -> & _ & _ & Hr & _). by exists e, a, b.
    + rewrite Ho. by exists RUndef, 0, 0.
Qed.

Lemma chain_remove g k ps :
  ∀ lo hi (eps : list (string * ref)),
    eps.*1 = ps.*1 →
    chain (λ p, rep g p.2) ps lo hi (eps.*2) →
    (remove k eps).*1 = (remove k ps).*1
    ∧ chain (λ p, rep g p.2) (remove k ps) lo hi ((remove k eps).*2).
Proof.
  induction ps as [|[k0 v] ps IH]; intros lo hi [|[k0' e0] eps]; simpl; try done.
  intros [= -> Hk] (mid & Hr & Hc).
  pose proof (rep_range _ _ _ _ _ Hr) as Hlm.
  destruct (IH mid hi eps Hk Hc) as [Hk' Hc'].
  destruct (String.eqb k0 k); simpl.
  - split; [done|].
    eapply (chain_transfer (λ p, rep g p.2) _ g g);
      [apply rep_ranges_props| |done|lia|lia|done].
    apply Forall_forall. intros t _ ?????. apply rep_transfer.
  - split; [by f_equal|]. by exists mid.
Qed.

Lemma store_delete_rep g t lo hi r k :
  rep g t lo hi r →
  match delete t k with
  | Ok t' => ∃ g', store_delete g r k = Ok g' ∧ rep g' t' lo hi r ∧ frame g g' lo hi
  | Throw x => store_delete g r k = Throw x
  end.
Proof.
  destruct t; simpl; try (by intros [-> _]);
    try (intros [-> ?]; exists g; by repeat split).
  - intros (l & es & -> & Hl & Hr). exists g. simpl. rewrite Hl.
    split; [done|]. split; [|apply frame_refl]. by exists l, es.
  - intros (l & eps & -> & Hl & Hlt & Hk & Hc). simpl. rewrite Hl.
    pose proof (chain_range _ _ (rep_ranges_props g props) _ _ _ Hc) as Hlo.
    pose proof (lookup_lt_Some _ _ _ Hl) as Hlen.
    destruct (chain_remove g k props _ _ _ Hk Hc) as [Hk' Hc'].
    eexists. split; [done|]. split.
    + exists l, (remove k eps). split; [done|].
      split; [by apply list_lookup_insert_eq|]. split; [done|]. split; [done|].
      eapply (chain_transfer (λ p, rep g p.2) _ g);
        [apply rep_ranges_props| |done|lia|lia|].
      * apply Forall_forall. intros t _ ?????. apply rep_transfer.
      * intros l' Hl'. apply list_lookup_insert_ne. lia.
    + unfold frame. split; [apply length_insert|].
      intros l' Hl'. apply list_lookup_insert_ne. lia.
Qed.

Lemma delete_path_nullish t path k :
  nullish t = true → delete_path t path k = Throw TypeError.
Proof. destruct t, path; done. Qed.

Lemma store_delete_path_nullish g r path k :
  ref_nullish r = true → store_delete_path g r path k = Throw TypeError.
Proof. destruct r, path; done. Qed.

(** A delete along a path does in the store what it does on the tree,
    and touches no cell outside the range of the tree. *)
Lemma store_delete_path_rep k path :
  ∀ g t lo hi r,
    rep g t lo hi r →
    match delete_path t path k with
    | Ok t' =>
        ∃ g', store_delete_path g r path k = Ok g' ∧ rep g' t' lo hi r ∧ frame g g' lo hi
    | Throw x => store_delete_path g r path k = Throw x
    end.
Proof.
  induction path as [|p rest IH]; intros g t lo hi r Hr; [by apply store_delete_rep|].
  cbn [delete_path store_delete_path].
  destruct t as [| | | | |ts|ps]; simpl in Hr;
    try (destruct Hr as [-> _]; simpl; done);
    try (destruct Hr as [-> _]; simpl;
         by rewrite delete_path_nullish, store_delete_path_nullish).
  - destruct Hr as (l & es & -> & Hl & _). simpl. rewrite Hl. simpl.
    by rewrite delete_path_nullish, store_delete_path_nullish.
  - destruct Hr as (l & eps & -> & Hl & Hlt & Hk & Hc). simpl. rewrite Hl. simpl.
    pose proof (chain_range _ _ (rep_ranges_props g ps) _ _ _ Hc) as Hlo.
    pose proof (chain_own g p ps _ _ _ Hk Hc) as Ho.
    destruct (own p ps) as [c|]; simpl.
    2:{ rewrite Ho. simpl. by rewrite delete_path_nullish, store_delete_path_nullish. }
    destruct Ho as (e & a & b & -> & Ha & Hb & Hrc & Hput). simpl.
    specialize (IH g c a b e Hrc).
    destruct (delete_path c rest k) as [c'|x]; simpl; [|done].
    destruct IH as (g' & -> & Hr' & Hfr). exists g'. split; [done|].
    split; [|eapply frame_widen; [done|lia|lia]].
    exists l, eps. split; [done|]. split; [|split; [done|]].
    + destruct Hfr as [_ Hf]. rewrite Hf by lia. done.
    + split; [|by apply Hput].
      clear -Hk. revert eps Hk.
      induction ps as [|[k0 v] ps IHps]; intros [|[k0' e0] eps]; simpl; try done.
      intros [= -> Hk]. destruct (String.eqb k0 p); simpl; f_equal; auto.
Qed.

(** ** The store version refines the tree version *)

Lemma sim_bind g0 lo hi copy rt rg ft fg :
  sim g0 lo hi copy rt rg →
  (∀ t g, rep g t lo hi copy → frame g0 g lo hi → sim_out g0 lo hi copy (ft t) (fg g)) →
  sim_out g0 lo hi copy (result_bind rt ft) (result_bind rg fg).
Proof.
  intros Hs Hk. destruct rt as [t|x]; simpl in *.
  - destruct Hs as (g & -> & Hr & Hf). simpl. by apply Hk.
  - by rewrite Hs.
Qed.

Lemma sim_return g0 lo hi copy rt rg :
  sim g0 lo hi copy rt rg →
  sim_out g0 lo hi copy rt (result_bind rg (λ h, Ok (h, copy))).
Proof.
  destruct rt as [t|x]; simpl.
  - intros (g & -> & Hr & Hf). by exists g.
  - by intros ->.
Qed.

Lemma sim_delete_path g0 lo hi copy path k t g :
  rep g t lo hi copy → frame g0 g lo hi →
  sim g0 lo hi copy (delete_path t path k) (store_delete_path g copy path k).
Proof.
  intros Hr Hf. pose proof (store_delete_path_rep k path g t lo hi copy Hr) as Hd.
  unfold sim. destruct (delete_path t path k); [|done].
  destruct Hd as (g' & -> & Hr' & Hf'). exists g'. repeat split; try done.
  - destruct Hf, Hf'. congruence.
  - intros l Hl. destruct Hf as [_ Hf], Hf' as [_ Hf']. by rewrite Hf', Hf.
Qed.

Lemma sim_annotations g0 lo hi copy t g :
  rep g t lo hi copy → frame g0 g lo hi →
  sim g0 lo hi copy
    (md <- get t "metadata" ;;
     ann <- get md "annotations" ;;
     if nullish ann then Ok t
     else delete_path t ["metadata"; "annotations"] last_applied)
    (md <- store_get g copy "metadata" ;;
     ann <- store_get g md "annotations" ;;
     if ref_nullish ann then Ok g
     else store_delete_path g copy ["metadata"; "annotations"] last_applied).
Proof.
  intros Hr Hf. pose proof (store_get_rep g t lo hi copy "metadata" Hr) as Hmd.
  destruct (get t "metadata") as [md|x]; cbn [result_bind]; [|by rewrite Hmd].
  destruct Hmd as (e & a & b & -> & Hre). cbn [result_bind].
  pose proof (store_get_rep g md a b e "annotations" Hre) as Hann.
  destruct (get md "annotations") as [ann|x]; cbn [result_bind]; [|by rewrite Hann].
  destruct Hann as (e' & a' & b' & -> & Hre'). cbn [result_bind].
  rewrite (rep_nullish _ _ _ _ _ Hre').
  destruct (nullish ann); [by exists g|]. by apply sim_delete_path.
Qed.

Lemma frame_prefix h ext g lo :
  frame (h ++ ext) g lo (length (h ++ ext)) → length h ≤ lo → ∃ ext', g = h ++ ext'.
Proof.
  intros [Hlen Hf] Hlo. exists (drop (length h) g).
  rewrite <- (take_drop (length h) g) at 1. f_equal.
  apply list_eq. intros i. destruct (decide (i < length h)) as [Hi|Hi].
  - rewrite lookup_take_lt by done. rewrite Hf by lia. by apply lookup_app_l.
  - rewrite lookup_take_ge by lia. symmetry. apply lookup_ge_None. lia.
Qed.

(** The cleaning in the store, against the cleaning of the tree: the
    same exception, or a store that extends the old one (no cell that
    existed is changed), in which the copy reads as the cleaned tree,
    lies wholly in the new cells, and the item still reads as it did. *)
Lemma store_cleanKesItem_refines h item t :
  read h item = Some t →
  match cleanKesItem t with
  | Ok t' =>
      ∃ h' copy,
        store_cleanKesItem h item = Ok (h', copy)
        ∧ (∃ ext, h' = h ++ ext)
        ∧ rep h' t' (length h) (length h') copy
        ∧ read h' copy = Some t'
        ∧ read h' item = Some t
  | Throw x => store_cleanKesItem h item = Throw x
  end.
Proof.
  intros Hread. unfold cleanKesItem, store_cleanKesItem, store_json_roundtrip.
  rewrite Hread. destruct (json_roundtrip t) as [c|x]; [|done].
  cbn [result_bind].
  destruct (store_parse_rep c h) as [[ext Hext] Hrep].
  destruct (store_parse c h) as [h1 copy]. simpl in Hext, Hrep. subst h1.
  cbn [fst snd].
  set (lo := length h) in *. set (hi := length (h ++ ext)) in *.
  match goal with
  | |- match ?rt with Ok _ => ∃ _ _, ?rg = _ ∧ _ | Throw _ => _ end =>
      assert (sim_out (h ++ ext) lo hi copy rt rg) as Hsim
  end.
  { apply sim_bind; [apply sim_delete_path; [done|apply frame_refl]|].
    do 4 (intros ????; apply sim_bind; [by apply sim_delete_path|]).
    intros ????. apply sim_bind; [by apply sim_annotations|].
    intros ????. by apply sim_return, sim_delete_path. }
  revert Hsim. unfold sim_out.
  match goal with
  | |- match ?rt with _ => _ end → _ => destruct rt as [t'|x]
  end; intros Hsim.
  - destruct Hsim as (g' & Hg' & Hr' & Hf).
    exists g', copy. split; [exact Hg'|].
    destruct (frame_prefix _ _ _ _ Hf) as [ext' ->]; [done|].
    assert (length (h ++ ext') = hi) as Hlen by by destruct Hf.
    split; [by exists ext'|]. rewrite Hlen. split; [done|]. split.
    + unfold read. eapply rep_tree; [done|lia].
    + unfold read in *. eapply tree_mono; [done|]. rewrite length_app. lia.
  - exact Hsim.
Qed.

(** ** Cleaning: what is removed, what is kept, what is left alone *)

(** C3 (amended). For an eligible candidate that carries metadata,
    held in the store as the parser left it, cleaning returns a copy
    made of new objects only and leaves every object that existed as it
    was, so the candidate still reads as before.  In the copy the five
    managed fields are no longer properties of [metadata], the
    last-applied-configuration annotation is gone while every other
    annotation is as it was, [status] is gone, and every other property
    of the resource and of its metadata is as it was; the target
    resource carries that metadata.  Only the direct properties of
    [metadata] are removed. *)
Theorem cleanKesItem_strips (h : store) (item : ref) (t : value) :
  read h item = Some t →
  eligible t = true →
  json_like t = true →
  has_metadata t = true →
  ∃ h' copy t',
    store_cleanKesItem h item = Ok (h', copy)
    ∧ cleanKesItem t = Ok t'
    ∧ read h' copy = Some t'
    ∧ (∃ ext, h' = h ++ ext)
    ∧ read h' item = Some t
    ∧ rep h' t' (length h) (length h') copy
    ∧ (∀ k, k ∈ managed_fields → has_prop (field_of t' "metadata") k = false)
    ∧ has_prop (field_of (field_of t' "metadata") "annotations") last_applied = false
    ∧ (∀ k, k ≠ last_applied →
         field_of (field_of (field_of t' "metadata") "annotations") k
         = field_of (field_of (field_of t "metadata") "annotations") k)
    ∧ has_prop t' "status" = false
    ∧ (∀ k, k ∉ managed_fields → k ≠ "annotations" →
         field_of (field_of t' "metadata") k = field_of (field_of t "metadata") k)
    ∧ (∀ k, k ≠ "metadata" → k ≠ "status" → field_of t' k = field_of t k)
    ∧ (∀ cfg eso, transform cfg t' = Ok eso →
         field_of eso "metadata" = field_of t' "metadata").
Proof.
  intros Hread He Hj Hm.
  pose proof (store_cleanKesItem_refines h item t Hread) as Href.
  rewrite (cleanKesItem_ok t Hj He Hm) in *.
  destruct Href as (h' & copy & Hs & Hext & Hrep & Hcopy & Hitem).
  exists h', copy, (cleaned t).
  pose proof (field_of_cleaned_metadata t Hm (eligible_obj t He)) as Hmd.
  rewrite Hmd. repeat split; try done.
  - intros k Hk. by apply strip_metadata_managed.
  - apply strip_metadata_last_applied.
  - intros k Hk. by apply strip_metadata_annotations.
  - apply has_prop_cleaned_status.
  - intros k Hk Ha. by apply strip_metadata_other.
  - intros k Hk1 Hk2. by apply field_of_cleaned_other.
  - intros cfg eso Ht. rewrite <- Hmd. eapply transform_metadata; [|done].
    rewrite field_of_cleaned_other by done. by apply eligible_spec.
Qed.

(** C3, as stated, fails below the first level of [metadata]: the
    direct [uid] is removed, the [uid] under [labels] reaches the
    target resource. *)
Lemma nested_uid_survives :
  eligible exported = true
  ∧ (kes <- cleanKesItem exported ;; eso <- transform default_flags kes ;;
     md <- get eso "metadata" ;; Ok (has_prop md "uid", occurs "uid" md))
    = Ok (false, true).
Proof. by vm_compute. Qed.

(** * The theorems at concrete inputs *)

Lemma createRemoteRef_precedence_witness :
  nullish versioned_item = false
  ∧ ∃ ref,
      createRemoteRef versioned_item = Ok (VObj ref)
      ∧ own "key" ref = Some (VStr "secret/db")
      ∧ own "version" ref = Some (VStr "v7")
      ∧ own "property" ref = Some (VStr "pw").
Proof.
  split; [reflexivity|].
  destruct (createRemoteRef_precedence versioned_item eq_refl)
    as (ref & Hr & Hk & Hv & Hp & _).
  exists ref. repeat split; assumption.
Defined.

Lemma transform_fixed_fields_witness :
  truthy (field_of db_creds "spec") = true
  ∧ data_convertible (field_of db_creds "spec") = true
  ∧ ∃ eso,
      transform default_flags db_creds = Ok eso
      ∧ get eso "apiVersion" = Ok (VStr "external-secrets.io/v1alpha1")
      ∧ get eso "kind" = Ok (VStr "ExternalSecret")
      ∧ (espec <- get eso "spec" ;; get espec "refreshInterval") = Ok (VStr "1h")
      ∧ (espec <- get eso "spec" ;; ref <- get espec "secretStoreRef" ;; get ref "name")
        = Ok (VStr "vault")
      ∧ (espec <- get eso "spec" ;; ref <- get espec "secretStoreRef" ;; get ref "kind")
        = Ok (VStr "SecretStore").
Proof.
  split; [reflexivity|]. split; [reflexivity|].
  exact (transform_fixed_fields default_flags db_creds eq_refl eq_refl).
Defined.

Lemma exit_status_witness :
  flatten [[config_map]] = Ok [config_map]
  ∧ filterM keep [config_map] empty_world
    = (Ok [], printed_all [config_map] empty_world)
  ∧ (@main sample_host default_flags [[config_map]] empty_world).1 = Exited 1
  ∧ files (@main sample_host default_flags [[config_map]] empty_world).2 = ∅
  ∧ convert default_flags [[db_creds]] empty_world = (Ok [db_creds_eso], empty_world)
  ∧ [db_creds_eso] ≠ []
  ∧ (@main sample_host default_flags [[db_creds]] empty_world).1 = Exited 0.
Proof.
  pose proof (@exit_status sample_host default_flags [[config_map]] empty_world) as [H1 _].
  pose proof (@exit_status sample_host default_flags [[db_creds]] empty_world) as [_ H2].
  assert (flatten [[config_map]] = Ok [config_map]) as Hf by reflexivity.
  assert (filterM keep [config_map] empty_world
          = (Ok [], printed_all [config_map] empty_world)) as Hk by reflexivity.
  assert (convert default_flags [[db_creds]] empty_world
          = (Ok [db_creds_eso], empty_world)) as Hc by reflexivity.
  split; [exact Hf|]. split; [exact Hk|].
  rewrite (H1 _ _ Hf Hk).
  split; [reflexivity|]. split; [reflexivity|]. split; [exact Hc|].
  split; [discriminate|].
  erewrite (H2 _ _ _ Hc); [reflexivity|discriminate|reflexivity].
Defined.

Lemma write_one_layout_witness :
  get db_creds_eso "metadata"
  = Ok (VObj [("name", VStr "db-creds"); ("namespace", VStr "prod")])
  ∧ @yaml_dump sample_host db_creds_eso = Ok (flow_dump db_creds_eso)
  ∧ @path_resolve sample_host [VStr "./converted"; VStr "prod"; VStr "db-creds.yaml"]
    = Ok db_creds_path
  ∧ ∃ w', @write_one sample_host default_flags db_creds_eso empty_world = (Ok tt, w')
          ∧ console w' = [ConsoleLog [VStr "Writing to"; VStr db_creds_path]]
          ∧ files w' !! db_creds_path = Some (flow_dump db_creds_eso).
Proof.
  split; [reflexivity|]. split; [reflexivity|]. split; [reflexivity|].
  destruct (@write_one_layout sample_host default_flags db_creds_eso
              (VObj [("name", VStr "db-creds"); ("namespace", VStr "prod")])
              (flow_dump db_creds_eso) db_creds_path empty_world
              eq_refl eq_refl eq_refl eq_refl)
    as [(w' & Hw & Hc & _ & _ & Hf) _].
  exists w'. split; [exact Hw|]. split; [exact Hc|exact Hf].
Defined.

Lemma flatten_per_document_witness :
  Forall (Forall (λ d, nullish d = false))
    [[sequence_document; secret_list]; [items_as_text; kustomization]]
  ∧ flatten [[sequence_document; secret_list]; [items_as_text; kustomization]]
    = Ok [config_map; db_creds; db_creds; exported; VStr "abc"; kustomization]
  ∧ Exists (Exists (λ d, nullish d = true)) [[db_creds]; [VNull]]
  ∧ flatten [[db_creds]; [VNull]] = Throw TypeError
  ∧ regular_doc secret_list = true
  ∧ contribution secret_list = [db_creds; exported].
Proof.
  assert (Forall (Forall (λ d, nullish d = false))
            [[sequence_document; secret_list]; [items_as_text; kustomization]]) as Hall
    by (repeat constructor).
  assert (Exists (Exists (λ d, nullish d = true)) [[db_creds]; [VNull]]) as Hex.
  { apply Exists_cons_tl, Exists_cons_hd, Exists_cons_hd. reflexivity. }
  pose proof (flatten_per_document
                [[sequence_document; secret_list]; [items_as_text; kustomization]])
    as (H1 & _ & _ & _ & _ & _ & H7 & _).
  pose proof (flatten_per_document [[db_creds]; [VNull]]) as (_ & H2 & _).
  split; [exact Hall|]. split; [exact (H1 Hall)|]. split; [exact Hex|].
  split; [exact (H2 Hex)|]. split; [reflexivity|].
  exact (H7 secret_list eq_refl).
Defined.


Lemma skip_needs_metadata_witness :
  Exists (Exists (λ d, nullish d = true)) [[db_creds; VNull]]
  ∧ @main sample_host default_flags [[db_creds; VNull]] empty_world
    = (Uncaught TypeError, empty_world)
  ∧ Forall (Forall (λ d, json_like d = true)) [[db_creds; kustomization]]
  ∧ flatten [[db_creds; kustomization]] = Ok [db_creds; kustomization]
  ∧ Exists (λ c, has_metadata c = false) [db_creds; kustomization]
  ∧ (∃ w', @main sample_host default_flags [[db_creds; kustomization]] empty_world
           = (Uncaught TypeError, w')
           ∧ files w' = ∅)
  ∧ Forall (λ c, has_metadata c = true) [config_map; db_creds]
  ∧ filterM keep [config_map; db_creds] empty_world
    = (Ok [db_creds], printed_all [config_map; db_creds] empty_world).
Proof.
  pose proof (@skip_needs_metadata sample_host default_flags [[db_creds; VNull]] empty_world)
    as (H1 & _ & _).
  pose proof (@skip_needs_metadata sample_host default_flags [[db_creds; kustomization]]
                empty_world) as (_ & H2 & _).
  pose proof (@skip_needs_metadata sample_host default_flags [[config_map; db_creds]]
                empty_world) as (_ & _ & H3).
  assert (Exists (Exists (λ d, nullish d = true)) [[db_creds; VNull]]) as Hex1.
  { apply Exists_cons_hd, Exists_cons_tl, Exists_cons_hd. reflexivity. }
  assert (Forall (Forall (λ d, json_like d = true)) [[db_creds; kustomization]]) as Hj2
    by (repeat constructor).
  assert (Exists (λ c, has_metadata c = false) [db_creds; kustomization]) as Hex2.
  { apply Exists_cons_tl, Exists_cons_hd. reflexivity. }
  assert (Forall (Forall (λ d, json_like d = true)) [[config_map; db_creds]]) as Hj3
    by (repeat constructor).
  assert (Forall (λ c, has_metadata c = true) [config_map; db_creds]) as Hm3
    by (repeat constructor).
  split; [exact Hex1|]. split; [exact (H1 Hex1)|]. split; [exact Hj2|].
  split; [reflexivity|]. split; [exact Hex2|]. split.
  - destruct (H2 _ Hj2 eq_refl Hex2) as (w' & Hw & _ & Hf). exists w'. split; [exact Hw|exact Hf].
  - split; [exact Hm3|]. exact (proj1 (H3 _ Hj3 eq_refl Hm3)).
Defined.

Lemma dataFrom_wrapped_witness :
  eligible from_keys = true
  ∧ json_like from_keys = true
  ∧ has_metadata from_keys = true
  ∧ field_of (field_of from_keys "spec") "dataFrom" = VArr [VStr "foo"; VStr "bar"]
  ∧ data_convertible (field_of from_keys "spec") = true
  ∧ ∃ kes eso,
      cleanKesItem from_keys = Ok kes
      ∧ transform default_flags kes = Ok eso
      ∧ field_of (field_of eso "spec") "dataFrom"
        = VArr [VObj [("key", VStr "foo")]; VObj [("key", VStr "bar")]].
Proof.
  repeat (split; [reflexivity|]).
  exact (dataFrom_wrapped default_flags from_keys [VStr "foo"; VStr "bar"]
           eq_refl eq_refl eq_refl eq_refl eq_refl).
Defined.

Lemma cleanKesItem_strips_witness :
  read exported_store exported_ref = Some exported
  ∧ eligible exported = true
  ∧ json_like exported = true
  ∧ has_metadata exported = true
  ∧ ∃ h' copy t',
      store_cleanKesItem exported_store exported_ref = Ok (h', copy)
      ∧ read h' copy = Some t'
      ∧ read h' exported_ref = Some exported
      ∧ has_prop (field_of t' "metadata") "uid" = false
      ∧ has_prop t' "status" = false
      ∧ field_of (field_of (field_of t' "metadata") "annotations") "team" = VStr "db".
Proof.
  repeat (split; [reflexivity|]).
  destruct (cleanKesItem_strips exported_store exported_ref exported
              eq_refl eq_refl eq_refl eq_refl)
    as (h' & copy & t' & Hs & _ & Hc & _ & Hi & _ & Hm & _ & Ha & Hst & _).
  exists h', copy, t'. split; [exact Hs|]. split; [exact Hc|]. split; [exact Hi|].
  split; [|split; [exact Hst|]].
  - apply Hm. apply list_elem_of_In. simpl. tauto.
  - rewrite Ha by discriminate. reflexivity.
Defined.

(** * Further properties of the stages *)

(** ** Transformation: what the target holds *)

Lemma transform_Ok_inv cfg kes eso :
  truthy (field_of kes "spec") = true →
  transform cfg kes = Ok eso →
  ∃ dpart fpart,
    optional_part "data" convertData (field_of (field_of kes "spec") "data") = Ok dpart
    ∧ optional_part "dataFrom" convertDataFrom
        (field_of (field_of kes "spec") "dataFrom") = Ok fpart
    ∧ eso = VObj [("apiVersion", VStr "external-secrets.io/v1alpha1");
                  ("kind", VStr "ExternalSecret");
                  ("metadata", field_of kes "metadata");
                  ("spec", VObj (spec_head cfg (field_of kes "spec") ++ dpart ++ fpart))].
Proof.
  intros Hs. rewrite transform_unfold by done.
  destruct (optional_part "data" _ _) as [dpart|]; [|done].
  destruct (optional_part "dataFrom" _ _) as [fpart|]; [|done].
  cbn [result_bind]. intros [= <-]. by exists dpart, fpart.
Qed.

Lemma field_of_target_spec md ps :
  field_of (VObj [("apiVersion", VStr "external-secrets.io/v1alpha1");
                  ("kind", VStr "ExternalSecret");
                  ("metadata", md);
                  ("spec", VObj ps)]) "spec" = VObj ps.
Proof. rewrite field_of_obj. cbn [own]. by eqb_lit. Qed.

Lemma optional_part_fst k conv x part :
  optional_part k conv x = Ok part → part.*1 = if truthy x then [k] else [].
Proof.
  unfold optional_part. destruct (truthy x); [|by intros [= <-]].
  destruct (conv x); [|done]. by intros [= <-].
Qed.

Lemma own_spec_head_other cfg kspec k :
  k ≠ "refreshInterval" → k ≠ "secretStoreRef" → k ≠ "target" →
  own k (spec_head cfg kspec) = None.
Proof.
  intros H1 H2 H3. unfold spec_head. destruct (truthy _); cbn [own app]; by eqb_ne.
Qed.

Lemma own_spec_head_target cfg kspec :
  own "target" (spec_head cfg kspec)
  = if truthy (field_of kspec "template")
    then Some (VObj [("template", field_of kspec "template")]) else None.
Proof. unfold spec_head. destruct (truthy _); cbn [own app]; by eqb_lit. Qed.

(** X1. The order of the properties of a target resource: [apiVersion],
    [kind], [metadata], [spec], and inside [spec] [refreshInterval],
    [secretStoreRef], then [target], [data] and [dataFrom], each
    exactly when the legacy [template], [data], [dataFrom] is truthy.
    Nothing else of the legacy resource reaches the target. *)
Theorem transform_key_order (cfg : flags) (kes eso : value) :
  truthy (field_of kes "spec") = true →
  transform cfg kes = Ok eso →
  ∃ ps sps,
    eso = VObj ps
    ∧ ps.*1 = ["apiVersion"; "kind"; "metadata"; "spec"]
    ∧ own "spec" ps = Some (VObj sps)
    ∧ sps.*1 = ["refreshInterval"; "secretStoreRef"]
               ++ (if truthy (field_of (field_of kes "spec") "template")
                   then ["target"] else [])
               ++ (if truthy (field_of (field_of kes "spec") "data")
                   then ["data"] else [])
               ++ (if truthy (field_of (field_of kes "spec") "dataFrom")
                   then ["dataFrom"] else []).
Proof.
  intros Hs (dpart & fpart & Hd & Hf & ->)%transform_Ok_inv; [|done].
  eexists _, _. split; [done|]. split; [done|].
  split; [cbn [own]; by eqb_lit|].
  rewrite !fmap_app, (optional_part_fst _ _ _ _ Hd), (optional_part_fst _ _ _ _ Hf).
  unfold spec_head. by destruct (truthy (field_of (field_of kes "spec") "template")).
Qed.

(** X2. The legacy [spec.template], when truthy, is carried over as it
    is under [spec.target.template]; when it is missing or falsy the
    target [spec] has no [target] property at all. *)
Theorem transform_template (cfg : flags) (kes eso : value) :
  truthy (field_of kes "spec") = true →
  transform cfg kes = Ok eso →
  field_of (field_of eso "spec") "target"
  = (if truthy (field_of (field_of kes "spec") "template")
     then VObj [("template", field_of (field_of kes "spec") "template")]
     else VUndef)
  ∧ has_prop (field_of eso "spec") "target"
    = truthy (field_of (field_of kes "spec") "template").
Proof.
  intros Hs (dpart & fpart & Hd & Hf & ->)%transform_Ok_inv; [|done].
  rewrite field_of_target_spec.
  rewrite field_of_obj. cbn [has_prop].
  rewrite !own_app, own_spec_head_target.
  rewrite (optional_part_keys _ _ _ _ Hd), (optional_part_keys _ _ _ _ Hf) by done.
  by destruct (truthy (field_of (field_of kes "spec") "template")).
Qed.

(** X3. The legacy [spec.data], when it is a sequence of elements that
    are not null, becomes the target [spec.data] of the same length and
    order, the entry for an element [d] being
    [{secretKey: d.name, remoteRef: createRemoteRef(d)}]. *)
Theorem transform_data_entries (cfg : flags) (kes eso : value) (l : list value) :
  truthy (field_of kes "spec") = true →
  field_of (field_of kes "spec") "data" = VArr l →
  transform cfg kes = Ok eso →
  ∃ entries,
    field_of (field_of eso "spec") "data" = VArr entries
    ∧ Forall2 (λ d entry,
                 ∃ r, createRemoteRef d = Ok r
                      ∧ entry = VObj [("secretKey", field_of d "name"); ("remoteRef", r)])
        l entries.
Proof.
  intros Hs Hdata (dpart & fpart & Hd & Hf & ->)%transform_Ok_inv; [|done].
  rewrite Hdata in Hd. unfold optional_part in Hd. cbn [truthy] in Hd.
  destruct (convertData (VArr l)) as [d|] eqn:Hc; [|done].
  cbn [result_bind] in Hd. injection Hd as <-.
  unfold convertData, js_map in Hc.
  destruct (mapR _ l) as [entries|] eqn:Hm; [|done].
  cbn [result_bind] in Hc. injection Hc as <-.
  exists entries. split.
  - rewrite field_of_target_spec, field_of_obj.
    rewrite !own_app, own_spec_head_other by done. cbn [own]. by eqb_lit.
  - apply mapR_Forall2 in Hm. eapply Forall2_impl; [done|].
    intros d entry Hde. cbv beta in Hde.
    destruct (get d "name") as [n|] eqn:Hn; [|done]. cbn [result_bind] in Hde.
    destruct (createRemoteRef d) as [r|]; [|done]. cbn [result_bind] in Hde.
    injection Hde as <-. exists r. split; [done|].
    by rewrite (get_nonnullish d "name" (get_Ok_nonnullish _ _ _ Hn)) in Hn;
      injection Hn as <-.
Qed.

Lemma convertData_throws x :
  truthy x = true →
  match x with VArr l => forallb (λ d, negb (nullish d)) l | _ => false end = false →
  convertData x = Throw TypeError.
Proof.
  intros Ht Hbad. destruct x as [| | | | |l|]; try done.
  unfold convertData, js_map.
  assert (∃ d, d ∈ l ∧ nullish d = true) as (d & Hin & Hd).
  { apply not_true_iff_false in Hbad. rewrite forallb_forall in Hbad.
    destruct (decide (Exists (λ d, nullish d = true) l)) as [Hex|Hnex].
    - apply Exists_exists in Hex as (d & ? & ?). eauto.
    - exfalso. apply Hbad. intros d Hin%list_elem_of_In.
      apply not_Exists_Forall in Hnex; [|intros ?; apply _].
      rewrite Forall_forall in Hnex. specialize (Hnex d Hin). unfold compose in Hnex.
      by destruct (nullish d). }
  match goal with |- context [mapR ?f l] => set (cb := f) end.
  destruct (mapR_elem_throws cb l d TypeError Hin) as [e He];
    [unfold cb; by destruct d|].
  rewrite He. cbn [result_bind]. f_equal.
  apply mapR_throws in He as (d' & _ & Hd'). unfold cb in Hd'.
  destruct (nullish d') eqn:Hn'; [by destruct d'; simplify_eq/=|].
  by rewrite get_nonnullish, createRemoteRef_ok in Hd'.
Qed.

Lemma convertDataFrom_throws x :
  match x with VArr _ => true | _ => false end = false →
  convertDataFrom x = Throw TypeError.
Proof. by destruct x. Qed.

Lemma transform_throws (cfg : flags) (kes : value) :
  truthy (field_of kes "spec") = true →
  data_convertible (field_of kes "spec") = false →
  transform cfg kes = Throw TypeError.
Proof.
  intros Hs Hc. rewrite transform_unfold by done. unfold data_convertible in Hc.
  unfold optional_part.
  destruct (truthy (field_of (field_of kes "spec") "data")) eqn:Hd.
  - destruct (match field_of (field_of kes "spec") "data" with
              | VArr l => forallb (λ x, negb (nullish x)) l | _ => false end) eqn:Hok.
    + destruct (field_of (field_of kes "spec") "data") as [| | | | |l|] eqn:E; try done.
      rewrite convertData_ok by done. cbn [result_bind].
      cbn [andb] in Hc.
      destruct (truthy (field_of (field_of kes "spec") "dataFrom")); [|done].
      by rewrite convertDataFrom_throws.
    + by rewrite convertData_throws.
  - cbn [andb result_bind] in *.
    destruct (truthy (field_of (field_of kes "spec") "dataFrom")); [|done].
    by rewrite convertDataFrom_throws.
Qed.

(** X4. When does the transformation fail: for a resource with a truthy
    [spec] it returns a target unless [spec.data] is truthy and not a
    sequence of non-null elements, or [spec.dataFrom] is truthy and not
    a sequence; then it throws a TypeError. *)
Theorem transform_fails_iff (cfg : flags) (kes : value) :
  truthy (field_of kes "spec") = true →
  if data_convertible (field_of kes "spec")
  then ∃ eso, transform cfg kes = Ok eso
  else transform cfg kes = Throw TypeError.
Proof.
  intros Hs. destruct (data_convertible _) eqn:Hc.
  - destruct (transform_total cfg kes Hs Hc) as (dpart & fpart & _ & _ & Ht).
    eexists. exact Ht.
  - by apply transform_throws.
Qed.

(** X5. A target resource is not a legacy resource: fed back to the
    filter it fails the [apiVersion] check, so a second run over the
    converted files prints that diagnostic for each and converts
    nothing. *)
Theorem target_is_not_eligible (cfg : flags) (kes eso : value) :
  truthy (field_of kes "spec") = true →
  transform cfg kes = Ok eso →
  eligible eso = false
  ∧ ∀ w, nullish (field_of kes "metadata") = false →
      keep eso w
      = (Ok false,
         {| console := console w ++
              [ConsoleError [VStr "Expected"; field_of (field_of kes "metadata") "name";
                             VStr "to have field:"; VStr "apiVersion";
                             VStr "with value:"; VStr "kubernetes-client.io/v1"]];
            dirs := dirs w; files := files w |}).
Proof.
  intros Hs (dpart & fpart & Hd & Hf & ->)%transform_Ok_inv; [|done].
  split; [done|]. intros w Hm. rewrite keep_ineligible; [done|done|].
  unfold has_metadata. rewrite field_of_obj. cbn [own nullish negb andb].
  eqb_lit. cbn [default from_option id]. by rewrite Hm.
Qed.

(** ** Remote references, once more *)

Lemma remote_ref_shape_fixed kv fv pr :
  (∀ v, fv = Some v → truthy v = true) →
  let r := VObj ([("key", kv)]
                 ++ match fv with Some v => [("version", v)] | None => [] end
                 ++ (if truthy pr then [("property", pr)] else [])) in
  remote_ref_of r = r.
Proof.
  intros Hfv r. unfold r, remote_ref_of.
  destruct fv as [v|]; [pose proof (Hfv v eq_refl) as Hv|];
    destruct (truthy pr) eqn:Hp;
    rewrite !field_of_obj; cbn [own app]; eqb_lit; cbn [default from_option id];
    unfold first_truthy; cbn [find truthy];
    by rewrite ?Hp, ?Hv.
Qed.

(** X6. Building a reference from a reference gives the same reference:
    [createRemoteRef] keeps what it produced, so a source that already
    has the target shape passes through unchanged. *)
Theorem createRemoteRef_idempotent (dataItem : value) :
  nullish dataItem = false →
  ∃ r, createRemoteRef dataItem = Ok r ∧ createRemoteRef r = Ok r.
Proof.
  intros Hn. exists (remote_ref_of dataItem). split; [by apply createRemoteRef_ok|].
  rewrite createRemoteRef_ok by done. f_equal.
  apply remote_ref_shape_fixed. intros v Hv. by apply find_some in Hv as [_ ?].
Qed.

(** ** Cleaning, as a function of its own *)

Lemma has_metadata_obj item :
  has_metadata item = true →
  ∃ ps md, item = VObj ps ∧ own "metadata" ps = Some md ∧ nullish md = false.
Proof.
  intros [_ Hm%negb_true_iff]%andb_true_iff. destruct item; try done.
  rewrite field_of_obj in Hm. destruct (own "metadata" props) as [md|] eqn:Ho; [|done].
  by exists props, md.
Qed.

Lemma cleanKesItem_with_metadata item :
  json_like item = true → has_metadata item = true →
  cleanKesItem item = Ok (cleaned item).
Proof.
  intros Hj Hm. destruct (has_metadata_obj _ Hm) as (ps & md & -> & Ho & Hn).
  unfold cleaned. rewrite field_of_obj, Ho. by apply cleanKesItem_closed.
Qed.

Lemma cleanKesItem_without_metadata item :
  json_like item = true → has_metadata item = false →
  cleanKesItem item = Throw TypeError.
Proof.
  intros Hj Hm. unfold cleanKesItem. rewrite json_roundtrip_id by done.
  cbn [result_bind delete_path].
  destruct (nullish item) eqn:Hn; [by destruct item|].
  unfold has_metadata in Hm. rewrite Hn in Hm. cbn [negb andb] in Hm.
  apply negb_false_iff in Hm.
  rewrite get_nonnullish by done. cbn [result_bind].
  by destruct (field_of item "metadata").
Qed.

(** X7. Cleaning succeeds exactly on the values that carry metadata:
    on a parsed value whose [metadata] is missing or null (and on a
    value that is not a mapping at all) it throws a TypeError; on
    [undefined], which has no JSON text, a SyntaxError. *)
Theorem cleanKesItem_succeeds_iff (item : value) :
  cleanKesItem VUndef = Throw SyntaxError
  ∧ (json_like item = true →
     if has_metadata item
     then ∃ copy, cleanKesItem item = Ok copy
     else cleanKesItem item = Throw TypeError).
Proof.
  split; [done|]. intros Hj. destruct (has_metadata item) eqn:Hm.
  - exists (cleaned item). by apply cleanKesItem_with_metadata.
  - by apply cleanKesItem_without_metadata.
Qed.

Lemma forallb_remove k (ps : list (string * value)) (f : string * value → bool) :
  forallb f ps = true → forallb f (remove k ps) = true.
Proof.
  unfold remove. rewrite !forallb_forall. intros Hall p [Hp _]%filter_In. by apply Hall.
Qed.

Lemma json_like_del v k : json_like v = true → json_like (del v k) = true.
Proof. destruct v; try done. cbn [del json_like]. apply forallb_remove. Qed.

Lemma json_like_replace k x ps :
  json_like (VObj ps) = true → json_like x = true →
  json_like (VObj (replace k x ps)) = true.
Proof.
  cbn [json_like]. intros Hps Hx.
  induction ps as [|[k' v] ps IH]; [done|]. cbn [replace forallb] in *.
  apply andb_true_iff in Hps as [Hv Hps].
  destruct (String.eqb k' k); cbn [forallb snd]; apply andb_true_iff; split; auto.
Qed.

Lemma json_like_with_prop v k x :
  json_like v = true → json_like x = true → json_like (with_prop v k x) = true.
Proof. destruct v; try done. apply json_like_replace. Qed.

Lemma json_like_field_of v k :
  json_like v = true → nullish (field_of v k) = false → json_like (field_of v k) = true.
Proof.
  intros Hj Hn. destruct v; try done. rewrite field_of_obj in *.
  destruct (own k props) eqn:Ho; [|done]. by eapply json_like_own.
Qed.

Lemma json_like_strip_metadata md :
  json_like md = true → json_like (strip_metadata md) = true.
Proof.
  intros Hj. unfold strip_metadata.
  assert (json_like (foldl del md managed_fields) = true) as Hm
    by (unfold managed_fields; cbn [foldl]; by repeat apply json_like_del).
  destruct (nullish _) eqn:Hn; [done|].
  apply json_like_with_prop; [done|]. by apply json_like_del, json_like_field_of.
Qed.

Lemma json_like_cleaned item :
  json_like item = true → has_metadata item = true → json_like (cleaned item) = true.
Proof.
  intros Hj Hm. destruct (has_metadata_obj _ Hm) as (ps & md & -> & Ho & Hn).
  unfold cleaned. rewrite field_of_obj, Ho. cbn [default from_option id].
  change (json_like (del (VObj (replace "metadata" (strip_metadata md) ps)) "status") = true).
  apply json_like_del, json_like_replace; [done|].
  apply json_like_strip_metadata. by eapply json_like_own.
Qed.

Lemma remove_absent {A} k (ps : list (string * A)) : own k ps = None → remove k ps = ps.
Proof.
  induction ps as [|[k' v] ps IH]; [done|]. unfold remove in *. simpl.
  destruct (String.eqb k' k); [done|]. intros Ho. simpl. f_equal. by apply IH.
Qed.

Lemma replace_same {A} k (x : A) ps : own k ps = Some x → replace k x ps = ps.
Proof.
  induction ps as [|[k' v] ps IH]; [done|]. cbn [own replace].
  destruct (String.eqb k' k); [by intros [= ->]|]. intros Ho. f_equal. by apply IH.
Qed.

Lemma del_absent v k : has_prop v k = false → del v k = v.
Proof.
  destruct v; try done. cbn [has_prop del]. intros Hp. f_equal.
  apply remove_absent. destruct (own k props); [|done].
  by apply bool_decide_eq_false in Hp; destruct Hp.
Qed.

Lemma with_prop_same v k : nullish (field_of v k) = false → with_prop v k (field_of v k) = v.
Proof.
  destruct v; try done. rewrite field_of_obj. cbn [with_prop]. intros Hn. f_equal.
  apply replace_same. by destruct (own k props).
Qed.

Lemma strip_metadata_idempotent md :
  strip_metadata (strip_metadata md) = strip_metadata md.
Proof.
  set (sm := strip_metadata md).
  assert (foldl del sm managed_fields = sm) as Hfold.
  { assert (∀ k, In k managed_fields → del sm k = sm) as Hd.
    { intros k Hk. by apply del_absent, strip_metadata_managed, list_elem_of_In. }
    unfold managed_fields in *. cbn [foldl].
    rewrite (Hd "creationTimestamp"), (Hd "generation"), (Hd "resourceVersion"),
      (Hd "uid"), (Hd "selfLink"); cbn [In]; tauto. }
  unfold strip_metadata at 1. rewrite Hfold.
  destruct (nullish (field_of sm "annotations")) eqn:Hn; [done|].
  rewrite del_absent by apply strip_metadata_last_applied.
  by apply with_prop_same.
Qed.

Lemma cleaned_idempotent item :
  has_metadata item = true → cleaned (cleaned item) = cleaned item.
Proof.
  intros Hm. destruct (has_metadata_obj _ Hm) as (ps & md & -> & Ho & Hn).
  pose proof (field_of_cleaned_metadata (VObj ps) Hm (ex_intro _ ps eq_refl)) as Hmd.
  unfold cleaned at 1. unfold cleaned in Hmd at 1. 
  set (ps' := remove "status" (replace "metadata"
                (strip_metadata (field_of (VObj ps) "metadata")) ps)) in *.
  change (cleaned (VObj ps)) with (VObj ps'). cbv beta iota.
  rewrite Hmd, strip_metadata_idempotent. f_equal.
  rewrite replace_same.
  - apply remove_absent, own_remove_eq.
  - unfold ps'. rewrite own_remove_ne by done. by rewrite own_replace_eq, Ho.
Qed.

Lemma has_metadata_cleaned item :
  has_metadata item = true → has_metadata (cleaned item) = true.
Proof.
  intros Hm. destruct (has_metadata_obj _ Hm) as (ps & md & -> & Ho & Hn).
  unfold has_metadata.
  rewrite (field_of_cleaned_metadata (VObj ps) Hm (ex_intro _ ps eq_refl)).
  rewrite nullish_strip_metadata, field_of_obj, Ho. cbn [default from_option id].
  by rewrite Hn.
Qed.

(** X8. Cleaning is idempotent: on a parsed value, cleaning the result
    of a cleaning returns it unchanged. *)
Theorem cleanKesItem_idempotent (item copy : value) :
  json_like item = true →
  cleanKesItem item = Ok copy →
  cleanKesItem copy = Ok copy.
Proof.
  intros Hj Hc. destruct (has_metadata item) eqn:Hm.
  - rewrite cleanKesItem_with_metadata in Hc by done. injection Hc as <-.
    rewrite cleanKesItem_with_metadata.
    + by rewrite cleaned_idempotent.
    + by apply json_like_cleaned.
    + by apply has_metadata_cleaned.
  - by rewrite cleanKesItem_without_metadata in Hc.
Qed.

(** X9. Cleaning keeps a candidate eligible and leaves its [spec] as it
    is, so the reads of [kes.spec] in the transformation cannot fail:
    whether an eligible candidate with metadata becomes a target
    depends on its [spec.data] and [spec.dataFrom] alone. *)
Theorem eligible_candidate_converts_iff (cfg : flags) (item : value) :
  json_like item = true →
  eligible item = true →
  has_metadata item = true →
  ∃ kes,
    cleanKesItem item = Ok kes
    ∧ eligible kes = true
    ∧ field_of kes "spec" = field_of item "spec"
    ∧ if data_convertible (field_of item "spec")
      then ∃ eso, transform cfg kes = Ok eso
      else transform cfg kes = Throw TypeError.
Proof.
  intros Hj He Hm. exists (cleaned item).
  assert (∀ k, k ≠ "metadata" → k ≠ "status" →
            field_of (cleaned item) k = field_of item k) as Hsame
    by (intros; by apply field_of_cleaned_other).
  split; [by apply cleanKesItem_with_metadata|].
  split; [unfold eligible in *; by rewrite !Hsame|].
  split; [by apply Hsame|].
  assert (truthy (field_of (cleaned item) "spec") = true) as Hs
    by (rewrite Hsame by done; by apply eligible_spec).
  destruct (data_convertible (field_of item "spec")) eqn:Hc.
  - destruct (transform_total cfg (cleaned item) Hs) as (dpart & fpart & _ & _ & Ht);
      [by rewrite Hsame|]. eexists. exact Ht.
  - apply transform_throws; [done|]. by rewrite Hsame.
Qed.

(** ** Flattening of several files *)

Lemma mapR_app {A B} (f : A → result B) (a b : list A) :
  mapR f (a ++ b) = (x <- mapR f a ;; y <- mapR f b ;; Ok (x ++ y)).
Proof.
  induction a as [|x a IH]; cbn [mapR app result_bind].
  - by destruct (mapR f b).
  - destruct (f x); cbn [result_bind]; [|done]. rewrite IH.
    destruct (mapR f a); cbn [result_bind]; [|done].
    by destruct (mapR f b).
Qed.

Lemma flatMap_app {A} (f : A → result value) (a b : list A) :
  flatMap f (a ++ b) = (x <- flatMap f a ;; y <- flatMap f b ;; Ok (x ++ y)).
Proof.
  unfold flatMap. rewrite mapR_app.
  destruct (mapR f a); cbn [result_bind]; [|done].
  destruct (mapR f b); cbn [result_bind]; [|done].
  by rewrite List.map_app, concat_app.
Qed.

(** X10. Flattening goes file by file: the candidates of a list of
    files followed by another are the candidates of the first followed
    by those of the second, and the first exception met, in that order,
    is the one thrown.  A file without documents adds nothing. *)
Theorem flatten_app (inputs1 inputs2 : list (list value)) :
  flatten (inputs1 ++ inputs2)
  = (a <- flatten inputs1 ;; b <- flatten inputs2 ;; Ok (a ++ b))
  ∧ flatten ([] :: inputs2) = flatten inputs2.
Proof.
  split; [apply flatMap_app|].
  unfold flatten, flatMap. cbn [mapR result_bind].
  by destruct (mapR _ inputs2).
Qed.

(** ** What the filter prints *)

Lemma printed_all_console cands w :
  printed_all cands w
  = {| console := console w ++ diagnostics cands; dirs := dirs w; files := files w |}.
Proof.
  revert w. induction cands as [|c cands IH]; intros w; cbn [printed_all].
  - destruct w. cbn. by rewrite app_nil_r.
  - rewrite IH. unfold diagnostics. cbn [omap list_omap].
    destruct (diagnostic c); cbn; [|done]. by rewrite <- app_assoc.
Qed.

(** X11. Which diagnostic the filter prints: for a candidate with
    metadata, the first check that fails, in the order [apiVersion],
    [kind], [spec], decides the single line printed (the later checks
    are not made), and a candidate that passes all three prints
    nothing. *)
Theorem keep_reports_first_failure (item : value) (w : world) :
  has_metadata item = true →
  let line (args : list value) :=
    {| console := console w ++
         [ConsoleError ([VStr "Expected"; field_of (field_of item "metadata") "name";
                         VStr "to have field:"] ++ args)];
       dirs := dirs w; files := files w |} in
  keep item w =
    if negb (strict_eq (field_of item "apiVersion") (VStr "kubernetes-client.io/v1")) then
      (Ok false, line [VStr "apiVersion"; VStr "with value:"; VStr "kubernetes-client.io/v1"])
    else if negb (strict_eq (field_of item "kind") (VStr "ExternalSecret")) then
      (Ok false, line [VStr "kind"; VStr "with value:"; VStr "ExternalSecret"])
    else if negb (truthy (field_of item "spec")) then
      (Ok false, line [VStr "spec"])
    else (Ok true, w).
Proof.
  intros Hm line. destruct (eligible item) eqn:He.
  - rewrite keep_eligible by done. unfold eligible in He.
    by apply andb_true_iff in He as [[-> ->]%andb_true_iff ->].
  - rewrite keep_ineligible by done. unfold eligible in He.
    unfold diagnostic, name_of, api_version, kind_name, line.
    destruct (strict_eq (field_of item "apiVersion") _); [|done].
    destruct (strict_eq (field_of item "kind") _); [|done].
    by destruct (truthy (field_of item "spec")).
Qed.

Lemma filterM_keep_stops pre c post w :
  Forall (λ x, eligible x = false → has_metadata x = true) pre →
  eligible c = false → has_metadata c = false →
  filterM keep (pre ++ c :: post) w = (Throw TypeError, printed_all pre w).
Proof.
  intros Hpre He Hm. revert w.
  induction Hpre as [|x pre Hx _ IH]; intros w; cbn [app filterM printed_all].
  - unfold bind at 1. by rewrite keep_no_metadata.
  - unfold bind at 1. destruct (eligible x) eqn:Hex.
    + rewrite keep_eligible by done. unfold bind. rewrite IH.
      by rewrite diagnostic_eligible.
    + rewrite keep_ineligible by auto. unfold bind. by rewrite IH.
Qed.

Section RunProperties.
Context `{Host}.

(** X12. Where the filter stops: at the first ineligible candidate
    without metadata the run ends with a TypeError; the diagnostics of
    the candidates before it have been printed, nothing is printed for
    it or for those after it, and nothing is written. *)
Theorem filter_stops_at_first (cfg : flags) (inputs : list (list value))
    (pre post : list value) (c : value) (w : world) :
  flatten inputs = Ok (pre ++ c :: post) →
  Forall (λ x, eligible x = false → has_metadata x = true) pre →
  eligible c = false →
  has_metadata c = false →
  main cfg inputs w
  = (Uncaught TypeError,
     {| console := console w ++ diagnostics pre; dirs := dirs w; files := files w |}).
Proof.
  intros Hf Hpre He Hm. unfold main. rewrite convert_unfold, Hf.
  by rewrite filterM_keep_stops, printed_all_console.
Qed.

Lemma foldl_written_console (outs : list (string * string)) w :
  console (foldl (λ w o, written o w) w outs) = console w ++ List.map writing_line outs.
Proof.
  revert w. induction outs as [|o outs IH]; intros w; cbn [foldl List.map].
  - by rewrite app_nil_r.
  - rewrite IH. cbn. by rewrite <- app_assoc.
Qed.

(** X13. The console of a run that ends normally, on inputs as the
    parser produces them: first the diagnostics of the ineligible
    candidates, in candidate order, then one [Writing to] line per
    eligible candidate, in the same order; every diagnostic comes
    before the first write. *)
Theorem console_of_a_run (cfg : flags) (inputs : list (list value)) (w w' : world) :
  Forall (Forall (λ d, json_like d = true)) inputs →
  main cfg inputs w = (Exited 0, w') →
  ∃ cands outs,
    flatten inputs = Ok cands
    ∧ length outs = length (List.filter eligible cands)
    ∧ console w' = console w ++ diagnostics cands ++ List.map writing_line outs.
Proof.
  intros Hj (esos & w1 & Hc & [(_ & [=] & _)|(Hne & _ & Hw)])%main_exit_inv.
  apply convert_Ok_inv in Hc as (cands & Hf & Hm & -> & Ht); [|done].
  apply forEach_write_inv in Hw as (outs & Houts & ->).
  exists cands, outs. split; [done|]. split.
  - apply mapR_Forall2, Forall2_length in Ht, Houts.
    rewrite length_map in Ht. congruence.
  - rewrite foldl_written_console, printed_all_console. cbn. by rewrite app_assoc.
Qed.

Lemma written_keeps o w :
  dirs w ⊆ dirs (written o w)
  ∧ ∀ p, is_Some (files w !! p) → is_Some (files (written o w) !! p).
Proof.
  split; [cbn; set_solver|]. intros p Hp. cbn.
  destruct (decide (o.1 = p)) as [<-|Hne].
  - rewrite lookup_insert_eq. by eexists.
  - by rewrite lookup_insert_ne.
Qed.

Lemma forEach_write_keeps cfg esoSecrets w r w' :
  forEach (write_one cfg) esoSecrets w = (r, w') →
  dirs w ⊆ dirs w' ∧ ∀ p, is_Some (files w !! p) → is_Some (files w' !! p).
Proof.
  revert w. induction esoSecrets as [|e es IH]; intros w; cbn [forEach].
  - by intros [= _ <-].
  - unfold bind. rewrite write_one_unfold.
    destruct (output_of cfg e) as [o|x]; [|by intros [= _ <-]].
    intros [Hd Hf]%IH. destruct (written_keeps o w) as [Hd' Hf'].
    split; [by etrans|]. intros p Hp. by apply Hf, Hf'.
Qed.

(** X14. The run never removes anything: however it ends, every
    directory and every file that existed before still exists after
    (a file may have been overwritten). *)
Theorem main_removes_nothing (cfg : flags) (inputs : list (list value))
    (w w' : world) (r : outcome) :
  main cfg inputs w = (r, w') →
  dirs w ⊆ dirs w' ∧ ∀ p, is_Some (files w !! p) → is_Some (files w' !! p).
Proof.
  unfold main. destruct (convert cfg inputs w) as [[esos|e] w1] eqn:Hc;
    apply convert_fs in Hc as [Hd Hf].
  - destruct (length esos =? 0).
    + cbn. intros [= _ <-]. cbn. by rewrite Hd, Hf.
    + destruct (forEach _ _ _) as [[[]|e] w2] eqn:Hw;
        apply forEach_write_keeps in Hw as [Hd' Hf'];
        intros [= _ <-]; rewrite <- Hd, <- Hf; done.
  - intros [= _ <-]. by rewrite Hd, Hf.
Qed.

Lemma forEach_write_fails cfg written_before bad rest outs e w :
  mapR (output_of cfg) written_before = Ok outs →
  output_of cfg bad = Throw e →
  forEach (write_one cfg) (written_before ++ bad :: rest) w
  = (Throw e, foldl (λ w o, written o w) w outs).
Proof.
  revert outs w. induction written_before as [|x xs IH]; intros outs w; cbn [mapR app].
  - intros [= <-] Hbad. cbn [forEach foldl]. unfold bind.
    by rewrite write_one_unfold, Hbad.
  - destruct (output_of cfg x) as [o|] eqn:Ho; cbn [result_bind]; [|done].
    destruct (mapR (output_of cfg) xs) as [os|] eqn:Hos; cbn [result_bind]; [|done].
    intros [= <-] Hbad. cbn [forEach foldl]. unfold bind at 1.
    rewrite write_one_unfold, Ho. by apply IH.
Qed.

(** X15. The write loop is not all-or-nothing: when serializing or
    resolving the path of one target fails, the run ends with that
    exception, the targets before it have been written and stay
    written, and those after it are not written. *)
Theorem write_loop_stops_at_failure (cfg : flags) (inputs : list (list value))
    (before rest : list value) (bad : value) (outs : list (string * string))
    (e : exn) (w w1 : world) :
  convert cfg inputs w = (Ok (before ++ bad :: rest), w1) →
  mapR (output_of cfg) before = Ok outs →
  output_of cfg bad = Throw e →
  main cfg inputs w = (Uncaught e, foldl (λ w o, written o w) w1 outs).
Proof.
  intros Hc Hb Hbad. unfold main. rewrite Hc.
  rewrite length_app. cbn [length]. rewrite Nat.add_succ_r. cbn [Nat.eqb].
  by rewrite (forEach_write_fails _ _ _ _ _ _ _ Hb Hbad).
Qed.

(** X16. With pairwise distinct output paths nothing is lost: after a
    write loop that completes, each target's text is in the file at its
    path. *)
Theorem distinct_paths_all_written (cfg : flags) (esoSecrets : list value)
    (outs : list (string * string)) (w w' : world) :
  forEach (write_one cfg) esoSecrets w = (Ok tt, w') →
  mapR (output_of cfg) esoSecrets = Ok outs →
  NoDup outs.*1 →
  ∀ o, o ∈ outs → files w' !! o.1 = Some o.2.
Proof.
  intros (outs' & Houts & ->)%forEach_write_inv Hm Hnd o Hin.
  rewrite Hm in Houts. injection Houts as <-.
  apply list_elem_of_split in Hin as (l1 & l2 & ->).
  destruct o as [p t]. apply files_foldl_written_last.
  rewrite fmap_app, fmap_cons in Hnd. apply NoDup_app in Hnd as (_ & _ & Hnd).
  by apply NoDup_cons in Hnd as [? _].
Qed.

(** X17. The write loop touches the files at the output paths only:
    every other path holds after the loop what it held before. *)
Theorem other_files_untouched (cfg : flags) (esoSecrets : list value)
    (outs : list (string * string)) (w w' : world) (p : string) :
  forEach (write_one cfg) esoSecrets w = (Ok tt, w') →
  mapR (output_of cfg) esoSecrets = Ok outs →
  p ∉ outs.*1 →
  files w' !! p = files w !! p.
Proof.
  intros (outs' & Houts & ->)%forEach_write_inv Hm Hp.
  rewrite Hm in Houts. injection Houts as <-.
  by apply files_foldl_written_other.
Qed.

Lemma printed_warnings item w : warnings (printed (diagnostic item) w) = warnings w.
Proof.
  unfold diagnostic, warnings.
  repeat case_match; cbn [printed console]; try done;
    rewrite List.filter_app; cbn; by rewrite app_nil_r.
Qed.

Lemma keep_warnings item w r w' : keep item w = (r, w') → warnings w' = warnings w.
Proof.
  destruct (eligible item) eqn:He.
  - rewrite keep_eligible by done. by intros [= _ <-].
  - destruct (has_metadata item) eqn:Hm.
    + rewrite keep_ineligible by done. intros [= _ <-]. apply printed_warnings.
    + rewrite keep_no_metadata by done. by intros [= _ <-].
Qed.

Lemma filterM_keep_warnings cands w r w' :
  filterM keep cands w = (r, w') → warnings w' = warnings w.
Proof.
  revert w r w'. induction cands as [|c cands IH]; intros w r w'; simpl.
  - by intros [= _ <-].
  - unfold bind at 1. destruct (keep c w) as [[b|e] w1] eqn:Hk.
    + apply keep_warnings in Hk as <-. unfold bind.
      destruct (filterM keep cands w1) as [[ys|e] w2] eqn:Hf.
      * apply IH in Hf. unfold ret. by intros [= _ <-].
      * apply IH in Hf. by intros [= _ <-].
    + apply keep_warnings in Hk. by intros [= _ <-].
Qed.

Lemma convert_warnings cfg inputs w r w' :
  convert cfg inputs w = (r, w') → warnings w' = warnings w.
Proof.
  rewrite convert_unfold. destruct (flatten inputs) as [cands|e]; [|by intros [= _ <-]].
  destruct (filterM keep cands w) as [[kept|e] w1] eqn:Hf;
    apply filterM_keep_warnings in Hf.
  - destruct (mapR cleanKesItem kept); by intros [= _ <-].
  - by intros [= _ <-].
Qed.

Lemma foldl_written_warnings (outs : list (string * string)) w :
  warnings (foldl (λ w o, written o w) w outs) = warnings w.
Proof.
  revert w. induction outs as [|o outs IH]; intros w; cbn [foldl]; [done|].
  rewrite IH. unfold warnings. cbn [written console].
  rewrite List.filter_app. cbn. by rewrite app_nil_r.
Qed.

(** X18. When the warning is printed.  On inputs as the parser
    produces them, the run prints [No convertable ExternalSecrets
    found] exactly when the flattening succeeds, every candidate
    carries metadata and none is eligible.  Such a run prints the
    diagnostics of all candidates, then the warning, leaves
    directories and files as they were, and ends in the script's own
    [process.exit(1)].  Every other run prints no warning and ends
    otherwise: at the end of the script or with an uncaught exception
    (which the runtime also turns into a non-zero status, though
    without the warning). *)
Theorem warning_iff_none_eligible (cfg : flags) (inputs : list (list value))
    (w w' : world) (r : outcome) :
  Forall (Forall (λ d, json_like d = true)) inputs →
  main cfg inputs w = (r, w') →
  (warnings w' = warnings w ++ [no_secrets_warning]
   ∧ r = Exited 1
   ∧ ∃ cands,
       flatten inputs = Ok cands
       ∧ Forall (λ c, has_metadata c = true) cands
       ∧ List.filter eligible cands = []
       ∧ w' = {| console := console w ++ diagnostics cands ++ [no_secrets_warning];
                 dirs := dirs w; files := files w |})
  ∨ (warnings w' = warnings w
     ∧ r ≠ Exited 1
     ∧ ¬ ∃ cands,
         flatten inputs = Ok cands
         ∧ Forall (λ c, has_metadata c = true) cands
         ∧ List.filter eligible cands = []).
Proof.
  intros Hj Hmain. unfold main in Hmain.
  assert (∀ cands res w1,
            convert cfg inputs w = (res, w1) →
            flatten inputs = Ok cands →
            Forall (λ c, has_metadata c = true) cands →
            List.filter eligible cands = [] → res = Ok []) as Hnone.
  { intros cands res w1 Hc Hf Hm He.
    rewrite (convert_with_metadata cfg inputs cands w Hf) in Hc;
      [|by eapply flatten_json_like|done].
    rewrite He in Hc. by injection Hc as <- _. }
  destruct (convert cfg inputs w) as [[esos|e] w1] eqn:Hc.
  - pose proof (convert_warnings _ _ _ _ _ Hc) as Hw1.
    destruct esos as [|eso esos].
    + left. simpl in Hmain. injection Hmain as <- <-.
      apply convert_Ok_inv in Hc as (cands & Hf & Hm & -> & Ht); [|done].
      split.
      { unfold warnings at 1. cbn [console]. rewrite List.filter_app.
        fold (warnings (printed_all cands w)). by rewrite Hw1. }
      split; [done|]. exists cands. split; [done|]. split; [done|]. split.
      * apply mapR_Forall2, Forall2_length in Ht. rewrite length_map in Ht.
        by apply nil_length_inv.
      * rewrite printed_all_console. cbn. by rewrite app_assoc.
    + right. simpl length in Hmain. cbn [Nat.eqb] in Hmain.
      destruct (forEach (write_one cfg) (eso :: esos) w1) as [r2 w2] eqn:Hw.
      assert (w2 = w' ∧ r ≠ Exited 1) as [-> Hr]
        by (destruct r2; by injection Hmain as <- <-).
      apply forEach_write_prefix in Hw as (emitted & outs & _ & _ & ->).
      split; [by rewrite foldl_written_warnings|]. split; [done|].
      intros (cands & Hf & Hm & He). by specialize (Hnone _ _ _ eq_refl Hf Hm He).
  - right. injection Hmain as <- <-.
    split; [by eapply convert_warnings|]. split; [done|].
    intros (cands & Hf & Hm & He). by specialize (Hnone _ _ _ eq_refl Hf Hm He).
Qed.
End RunProperties.

(** * The further properties at concrete inputs *)

Lemma transform_key_order_witness :
  truthy (field_of templated "spec") = true
  ∧ transform default_flags templated = Ok templated_eso
  ∧ ∃ ps sps,
      templated_eso = VObj ps
      ∧ ps.*1 = ["apiVersion"; "kind"; "metadata"; "spec"]
      ∧ own "spec" ps = Some (VObj sps)
      ∧ sps.*1 = ["refreshInterval"; "secretStoreRef"; "target"; "data"; "dataFrom"].
Proof.
  split; [reflexivity|]. split; [reflexivity|].
  exact (transform_key_order default_flags templated templated_eso eq_refl eq_refl).
Defined.

Lemma transform_template_witness :
  truthy (field_of templated "spec") = true
  ∧ transform default_flags templated = Ok templated_eso
  ∧ field_of (field_of templated_eso "spec") "target"
    = VObj [("template", VObj [("type", VStr "kubernetes.io/tls")])]
  ∧ has_prop (field_of templated_eso "spec") "target" = true.
Proof.
  split; [reflexivity|]. split; [reflexivity|].
  exact (transform_template default_flags templated templated_eso eq_refl eq_refl).
Defined.

Lemma transform_data_entries_witness :
  truthy (field_of templated "spec") = true
  ∧ transform default_flags templated = Ok templated_eso
  ∧ ∃ entries,
      field_of (field_of templated_eso "spec") "data" = VArr entries
      ∧ length entries = 2.
Proof.
  split; [reflexivity|]. split; [reflexivity|].
  destruct (transform_data_entries default_flags templated templated_eso
              [versioned_item; VObj [("name", VStr "user"); ("key", VStr "secret/user")]]
              eq_refl eq_refl eq_refl) as (entries & He & Hall).
  exists entries. split; [exact He|].
  symmetry. exact (Forall2_length _ _ _ Hall).
Defined.

Lemma transform_fails_iff_witness :
  truthy (field_of data_as_map "spec") = true
  ∧ transform default_flags data_as_map = Throw TypeError.
Proof.
  split; [reflexivity|].
  exact (transform_fails_iff default_flags data_as_map eq_refl).
Defined.

Lemma target_is_not_eligible_witness :
  truthy (field_of db_creds "spec") = true
  ∧ transform default_flags db_creds = Ok db_creds_eso
  ∧ eligible db_creds_eso = false.
Proof.
  split; [reflexivity|]. split; [reflexivity|].
  exact (proj1 (target_is_not_eligible default_flags db_creds db_creds_eso eq_refl eq_refl)).
Defined.

Lemma createRemoteRef_idempotent_witness :
  nullish versioned_item = false
  ∧ ∃ r, createRemoteRef versioned_item = Ok r ∧ createRemoteRef r = Ok r.
Proof.
  split; [reflexivity|]. exact (createRemoteRef_idempotent versioned_item eq_refl).
Defined.

Lemma cleanKesItem_succeeds_iff_witness :
  json_like kustomization = true
  ∧ cleanKesItem kustomization = Throw TypeError
  ∧ json_like exported = true
  ∧ ∃ copy, cleanKesItem exported = Ok copy.
Proof.
  split; [reflexivity|].
  split; [exact (proj2 (cleanKesItem_succeeds_iff kustomization) eq_refl)|].
  split; [reflexivity|].
  exact (proj2 (cleanKesItem_succeeds_iff exported) eq_refl).
Defined.

Lemma cleanKesItem_idempotent_witness :
  json_like exported = true
  ∧ cleanKesItem exported = Ok exported_clean
  ∧ cleanKesItem exported_clean = Ok exported_clean.
Proof.
  split; [reflexivity|]. split; [reflexivity|].
  exact (cleanKesItem_idempotent exported exported_clean eq_refl eq_refl).
Defined.

Lemma eligible_candidate_converts_iff_witness :
  json_like data_as_map = true
  ∧ eligible data_as_map = true
  ∧ has_metadata data_as_map = true
  ∧ ∃ kes,
      cleanKesItem data_as_map = Ok kes
      ∧ eligible kes = true
      ∧ transform default_flags kes = Throw TypeError.
Proof.
  split; [reflexivity|]. split; [reflexivity|]. split; [reflexivity|].
  destruct (eligible_candidate_converts_iff default_flags data_as_map
              eq_refl eq_refl eq_refl) as (kes & Hc & He & _ & Ht).
  exists kes. split; [exact Hc|]. split; [exact He|exact Ht].
Defined.

Lemma keep_reports_first_failure_witness :
  has_metadata deployment = true
  ∧ keep deployment empty_world
    = (Ok false,
       {| console := [ConsoleError [VStr "Expected"; VStr "web"; VStr "to have field:";
                                    VStr "kind"; VStr "with value:"; VStr "ExternalSecret"]];
          dirs := ∅; files := ∅ |}).
Proof.
  split; [reflexivity|].
  exact (keep_reports_first_failure deployment empty_world eq_refl).
Defined.

Lemma filter_stops_at_first_witness :
  flatten [[deployment; kustomization; db_creds]]
  = Ok ([deployment] ++ kustomization :: [db_creds])
  ∧ Forall (λ x, eligible x = false → has_metadata x = true) [deployment]
  ∧ eligible kustomization = false
  ∧ has_metadata kustomization = false
  ∧ @main sample_host default_flags [[deployment; kustomization; db_creds]] empty_world
    = (Uncaught TypeError,
       {| console := [] ++ diagnostics [deployment]; dirs := ∅; files := ∅ |}).
Proof.
  assert (Forall (λ x, eligible x = false → has_metadata x = true) [deployment]) as Hpre
    by (repeat constructor).
  split; [reflexivity|]. split; [exact Hpre|]. split; [reflexivity|].
  split; [reflexivity|].
  exact (@filter_stops_at_first sample_host default_flags
           [[deployment; kustomization; db_creds]] [deployment] [db_creds]
           kustomization empty_world eq_refl Hpre eq_refl eq_refl).
Defined.

Lemma console_of_a_run_witness :
  Forall (Forall (λ d, json_like d = true)) [[deployment; db_creds]]
  ∧ (@main sample_host default_flags [[deployment; db_creds]] empty_world).1 = Exited 0
  ∧ ∃ cands outs,
      flatten [[deployment; db_creds]] = Ok cands
      ∧ console (@main sample_host default_flags [[deployment; db_creds]] empty_world).2
        = console empty_world ++ diagnostics cands ++ List.map writing_line outs.
Proof.
  assert (Forall (Forall (λ d, json_like d = true)) [[deployment; db_creds]]) as Hj
    by (repeat constructor).
  split; [exact Hj|]. split; [reflexivity|].
  destruct (@console_of_a_run sample_host default_flags [[deployment; db_creds]]
              empty_world
              (@main sample_host default_flags [[deployment; db_creds]] empty_world).2
              Hj eq_refl) as (cands & outs & Hf & _ & Hc).
  exists cands, outs. split; [exact Hf|exact Hc].
Defined.

Lemma main_removes_nothing_witness :
  (@main sample_host default_flags [[db_creds]] used_world).1 = Exited 0
  ∧ is_Some (files used_world !! "./notes.txt")
  ∧ is_Some (files (@main sample_host default_flags [[db_creds]] used_world).2
               !! "./notes.txt").
Proof.
  assert (is_Some (files used_world !! "./notes.txt")) as Hold
    by (exists "mine"; reflexivity).
  split; [reflexivity|]. split; [exact Hold|].
  exact (proj2 (@main_removes_nothing sample_host default_flags [[db_creds]] used_world
                  (@main sample_host default_flags [[db_creds]] used_world).2
                  (@main sample_host default_flags [[db_creds]] used_world).1
                  (surjective_pairing _)) _ Hold).
Defined.

Lemma write_loop_stops_at_failure_witness :
  convert default_flags [[db_creds; numbered_namespace; from_keys]] empty_world
  = (Ok ([db_creds_eso] ++ numbered_namespace_eso
           :: [target_or_undefined default_flags from_keys]), empty_world)
  ∧ mapR (@output_of sample_host default_flags) [db_creds_eso]
    = Ok [(db_creds_path, flow_dump db_creds_eso)]
  ∧ @output_of sample_host default_flags numbered_namespace_eso = Throw TypeError
  ∧ @main sample_host default_flags [[db_creds; numbered_namespace; from_keys]] empty_world
    = (Uncaught TypeError,
       foldl (λ w o, @written sample_host o w) empty_world
         [(db_creds_path, flow_dump db_creds_eso)]).
Proof.
  split; [reflexivity|]. split; [reflexivity|]. split; [reflexivity|].
  exact (@write_loop_stops_at_failure sample_host default_flags
           [[db_creds; numbered_namespace; from_keys]]
           [db_creds_eso] [target_or_undefined default_flags from_keys]
           numbered_namespace_eso [(db_creds_path, flow_dump db_creds_eso)]
           TypeError empty_world empty_world eq_refl eq_refl eq_refl).
Defined.

Lemma distinct_paths_all_written_witness :
  (@forEach (@write_one sample_host default_flags) [db_creds_eso; templated_eso] used_world).1
  = Ok tt
  ∧ NoDup [db_creds_path; "./converted/prod/api.yaml"]
  ∧ files (@forEach (@write_one sample_host default_flags)
             [db_creds_eso; templated_eso] used_world).2 !! db_creds_path
    = Some (flow_dump db_creds_eso).
Proof.
  assert (NoDup [db_creds_path; "./converted/prod/api.yaml"]) as Hnd.
  { apply NoDup_cons. split.
    - intros Hin. apply list_elem_of_In in Hin. cbn [In] in Hin.
      destruct Hin as [Heq|[]]. discriminate Heq.
    - apply NoDup_cons. split; [|constructor].
      intros Hin. apply list_elem_of_In in Hin. destruct Hin. }
  split; [reflexivity|]. split; [exact Hnd|].
  refine (@distinct_paths_all_written sample_host default_flags
            [db_creds_eso; templated_eso]
            [(db_creds_path, flow_dump db_creds_eso);
             ("./converted/prod/api.yaml", flow_dump templated_eso)]
            used_world _ _ eq_refl Hnd (db_creds_path, flow_dump db_creds_eso) _).
  - apply surjective_pairing.
  - apply list_elem_of_In. cbn [In]. left. reflexivity.
Defined.

Lemma other_files_untouched_witness :
  (@forEach (@write_one sample_host default_flags) [db_creds_eso] used_world).1 = Ok tt
  ∧ ("./notes.txt" ∉ [(db_creds_path, flow_dump db_creds_eso)].*1)
  ∧ files (@forEach (@write_one sample_host default_flags) [db_creds_eso] used_world).2
      !! "./notes.txt"
    = Some "mine".
Proof.
  assert ("./notes.txt" ∉ [(db_creds_path, flow_dump db_creds_eso)].*1) as Hp.
  { intros Hin. apply list_elem_of_In in Hin. cbn in Hin.
    destruct Hin as [Heq|[]]. discriminate Heq. }
  split; [reflexivity|]. split; [exact Hp|].
  rewrite (@other_files_untouched sample_host default_flags [db_creds_eso]
             [(db_creds_path, flow_dump db_creds_eso)] used_world
             (@forEach (@write_one sample_host default_flags) [db_creds_eso] used_world).2
             "./notes.txt" (surjective_pairing _) eq_refl Hp).
  reflexivity.
Defined.

Lemma warning_iff_none_eligible_witness :
  Forall (Forall (λ d, json_like d = true)) [[deployment; config_map]]
  ∧ warnings (@main sample_host default_flags [[deployment; config_map]] empty_world).2
    = [no_secrets_warning]
  ∧ (@main sample_host default_flags [[deployment; config_map]] empty_world).1 = Exited 1
  ∧ ∃ cands,
      flatten [[deployment; config_map]] = Ok cands
      ∧ List.filter eligible cands = [].
Proof.
  assert (Forall (Forall (λ d, json_like d = true)) [[deployment; config_map]]) as Hj
    by (repeat constructor).
  split; [exact Hj|].
  destruct (@warning_iff_none_eligible sample_host default_flags
              [[deployment; config_map]] empty_world
              (@main sample_host default_flags [[deployment; config_map]] empty_world).2
              (@main sample_host default_flags [[deployment; config_map]] empty_world).1
              Hj (surjective_pairing _))
    as [(Hw & Hr & cands & Hf & _ & He & _)|(_ & Hr & _)].
  - split; [exact Hw|]. split; [exact Hr|]. exists cands. split; [exact Hf|exact He].
  - exfalso. apply Hr. reflexivity.
Defined.

(** ** Exceptions of the stages before the write loop *)

Lemma delete_path_exn v path k e : delete_path v path k = Throw e → e = TypeError.
Proof.
  revert v. induction path as [|p rest IH]; intros v; cbn [delete_path].
  - destruct v; cbn; congruence.
  - destruct (get v p) as [c|x] eqn:Hg; cbn [result_bind].
    + destruct (delete_path c rest k) as [c'|x] eqn:Hd; cbn [result_bind]; [done|].
      intros [= <-]. by eapply IH.
    + intros [= <-]. by apply get_throws in Hg as [-> _].
Qed.

Lemma cleanKesItem_exn item e :
  item ≠ VUndef → cleanKesItem item = Throw e → e = TypeError.
Proof.
  intros Hu. unfold cleanKesItem.
  assert (json_roundtrip item = Ok (json_copy item)) as -> by by destruct item.
  cbn [result_bind].
  repeat match goal with
    | |- result_bind (delete_path ?v ?p ?k) _ = Throw e → _ =>
        let Hd := fresh "Hd" in
        destruct (delete_path v p k) eqn:Hd; cbn [result_bind];
        [|intros [= <-]; by eapply delete_path_exn]
    end.
  match goal with
  | |- result_bind ?m _ = Throw e → _ =>
      assert (∀ x, m = Throw x → x = TypeError) as Hm; [|destruct m as [c|x]]
  end.
  - intros x. destruct (get _ "metadata") as [md|y] eqn:Hg; cbn [result_bind].
    + destruct (get md "annotations") as [ann|y] eqn:Hg'; cbn [result_bind].
      * destruct (nullish ann); [done|]. apply delete_path_exn.
      * intros [= <-]. by apply get_throws in Hg' as [-> _].
    + intros [= <-]. by apply get_throws in Hg as [-> _].
  - cbn [result_bind]. apply delete_path_exn.
  - cbn [result_bind]. intros [= <-]. by apply Hm.
Qed.

Lemma createRemoteRef_exn d e : createRemoteRef d = Throw e → e = TypeError.
Proof.
  destruct (nullish d) eqn:Hn.
  - rewrite createRemoteRef_throws by done. congruence.
  - by rewrite createRemoteRef_ok.
Qed.

Lemma convertData_exn x e : convertData x = Throw e → e = TypeError.
Proof.
  unfold convertData, js_map. destruct x as [| | | | |l|]; try congruence.
  destruct (mapR _ l) as [ys|y] eqn:Hm; cbn [result_bind]; [done|].
  intros [= <-]. apply mapR_throws in Hm as (d & _ & Hd). cbv beta in Hd.
  destruct (get d "name") as [n|z] eqn:Hg; cbn [result_bind] in Hd.
  - destruct (createRemoteRef d) as [r|z] eqn:Hr; cbn [result_bind] in Hd; [done|].
    injection Hd as <-. by eapply createRemoteRef_exn.
  - injection Hd as <-. by apply get_throws in Hg as [-> _].
Qed.

Lemma convertDataFrom_exn x e : convertDataFrom x = Throw e → e = TypeError.
Proof.
  destruct x as [| | | | |l|]; try (cbn; congruence).
  by rewrite convertDataFrom_ok.
Qed.

Lemma transform_exn cfg kes e : transform cfg kes = Throw e → e = TypeError.
Proof.
  unfold transform.
  repeat match goal with
    | |- result_bind (get ?v ?k) _ = Throw e → _ =>
        let Hg := fresh "Hg" in
        destruct (get v k) eqn:Hg; cbn [result_bind];
        [|intros [= <-]; by apply get_throws in Hg as [-> _]]
    | |- result_bind (if ?b then _ else _) _ = Throw e → _ => destruct b
    | |- result_bind (Ok _) _ = Throw e → _ => cbn [result_bind]
    | |- result_bind (result_bind (convertData ?x) _) _ = Throw e → _ =>
        let Hc := fresh "Hc" in
        destruct (convertData x) eqn:Hc; cbn [result_bind];
        [|intros [= <-]; by eapply convertData_exn]
    | |- result_bind (result_bind (convertDataFrom ?x) _) _ = Throw e → _ =>
        let Hc := fresh "Hc" in
        destruct (convertDataFrom x) eqn:Hc; cbn [result_bind];
        [|intros [= <-]; by eapply convertDataFrom_exn]
    end; done.
Qed.

Lemma keep_cases c w :
  keep c w = (Throw TypeError, w)
  ∨ ∃ w', keep c w = (Ok (eligible c), w').
Proof.
  destruct (eligible c) eqn:He.
  - right. eexists. by apply keep_eligible.
  - destruct (has_metadata c) eqn:Hm.
    + right. eexists. by apply keep_ineligible.
    + left. by apply keep_no_metadata.
Qed.

Lemma filterM_keep_result cands w r w1 :
  filterM keep cands w = (r, w1) →
  r = Throw TypeError ∨ r = Ok (List.filter eligible cands).
Proof.
  revert w r w1. induction cands as [|c cands IH]; intros w r w1; cbn [filterM].
  - intros [= <- _]. by right.
  - unfold bind at 1. destruct (keep_cases c w) as [->|[w' ->]].
    + intros [= <- _]. by left.
    + unfold bind. destruct (filterM keep cands w') as [[ys|x] w2] eqn:Hf.
      * apply IH in Hf as [[=]|[= ->]]. unfold ret. intros [= <- _]. right.
        cbn [List.filter]. by destruct (eligible c).
      * apply IH in Hf as [[= ->]|[=]]. intros [= <- _]. by left.
Qed.

(** X19. Before the write loop only one kind of exception can escape:
    whatever the parsed documents are, when the flattening, the filter,
    the cleaning or the transformation throws, it throws a TypeError,
    and directories and files are as they were. *)
Theorem convert_throws_TypeError_only (cfg : flags) (inputs : list (list value))
    (w w' : world) (e : exn) :
  convert cfg inputs w = (Throw e, w') →
  e = TypeError ∧ dirs w' = dirs w ∧ files w' = files w.
Proof.
  intros Hc. split; [|by eapply convert_fs].
  rewrite convert_unfold in Hc.
  destruct (flatten inputs) as [cands|x] eqn:Hf.
  2:{ injection Hc as <- _. by eapply flatten_exn. }
  destruct (filterM keep cands w) as [[kept|x] w1] eqn:Hk.
  2:{ injection Hc as <- _. by apply filterM_keep_result in Hk as [[= ->]|[=]]. }
  apply filterM_keep_result in Hk as [[=]|[= ->]].
  destruct (mapR cleanKesItem _) as [kess|x] eqn:Hm.
  - injection Hc as Hc _. apply mapR_throws in Hc as (kes & _ & Ht).
    by eapply transform_exn.
  - injection Hc as <- _.
    apply mapR_throws in Hm as (c & [_ He]%list_elem_of_In%filter_In & Hx).
    eapply cleanKesItem_exn; [|done]. by intros ->.
Qed.

Section StageOrder.
Context `{Host}.

(** X20. The stages run one after the other over the whole list: when
    every candidate carries metadata and one eligible candidate has a
    [data] or [dataFrom] that cannot be converted, the run ends with a
    TypeError after all diagnostics have been printed and before
    anything is written, also for the candidates that could have been
    converted. *)
Theorem bad_data_blocks_all_writes (cfg : flags) (inputs : list (list value))
    (cands : list value) (c : value) (w : world) :
  Forall (Forall (λ d, json_like d = true)) inputs →
  flatten inputs = Ok cands →
  Forall (λ x, has_metadata x = true) cands →
  c ∈ cands →
  eligible c = true →
  data_convertible (field_of c "spec") = false →
  main cfg inputs w
  = (Uncaught TypeError,
     {| console := console w ++ diagnostics cands; dirs := dirs w; files := files w |}).
Proof.
  intros Hj Hf Hm Hin He Hbad.
  pose proof (flatten_json_like _ _ Hj Hf) as Hjc.
  unfold main. rewrite (convert_with_metadata cfg inputs cands w Hf Hjc Hm).
  rewrite <- printed_all_console.
  assert (cleaned c ∈ List.map cleaned (List.filter eligible cands)) as Hin'.
  { apply list_elem_of_fmap. exists c. split; [done|].
    by apply list_elem_of_In, filter_In; split; [apply list_elem_of_In|]. }
  assert (transform cfg (cleaned c) = Throw TypeError) as Ht.
  { apply transform_throws; rewrite field_of_cleaned_other by done;
      [by apply eligible_spec|done]. }
  destruct (mapR_elem_throws (transform cfg) _ _ _ Hin' Ht) as [e Hthrow].
  rewrite Hthrow. f_equal. f_equal.
  apply mapR_throws in Hthrow as (kes & _ & Hk). by eapply transform_exn.
Qed.
End StageOrder.

Lemma convert_throws_TypeError_only_witness :
  convert default_flags [[db_creds; data_as_map]] empty_world
  = (Throw TypeError, empty_world)
  ∧ TypeError = TypeError ∧ dirs empty_world = ∅ ∧ files empty_world = ∅.
Proof.
  split; [reflexivity|].
  exact (convert_throws_TypeError_only default_flags [[db_creds; data_as_map]]
           empty_world empty_world TypeError eq_refl).
Defined.

Lemma bad_data_blocks_all_writes_witness :
  Forall (Forall (λ d, json_like d = true)) [[db_creds; deployment; data_as_map]]
  ∧ flatten [[db_creds; deployment; data_as_map]] = Ok [db_creds; deployment; data_as_map]
  ∧ Forall (λ x, has_metadata x = true) [db_creds; deployment; data_as_map]
  ∧ data_as_map ∈ [db_creds; deployment; data_as_map]
  ∧ eligible data_as_map = true
  ∧ data_convertible (field_of data_as_map "spec") = false
  ∧ @main sample_host default_flags [[db_creds; deployment; data_as_map]] empty_world
    = (Uncaught TypeError,
       {| console := console empty_world ++ diagnostics [db_creds; deployment; data_as_map];
          dirs := ∅; files := ∅ |}).
Proof.
  assert (Forall (Forall (λ d, json_like d = true)) [[db_creds; deployment; data_as_map]])
    as Hj by (repeat constructor).
  assert (Forall (λ x, has_metadata x = true) [db_creds; deployment; data_as_map])
    as Hm by (repeat constructor).
  assert (data_as_map ∈ [db_creds; deployment; data_as_map]) as Hin.
  { apply list_elem_of_In. cbn [In]. right. right. left. reflexivity. }
  split; [exact Hj|]. split; [reflexivity|]. split; [exact Hm|]. split; [exact Hin|].
  split; [reflexivity|]. split; [reflexivity|].
  exact (@bad_data_blocks_all_writes sample_host default_flags
           [[db_creds; deployment; data_as_map]] [db_creds; deployment; data_as_map]
           data_as_map empty_world Hj eq_refl Hm Hin eq_refl eq_refl).
Defined.
